(** * SmartAssist campus chatbot: follow-up generator and request handlers

    A shallow embedding of
      - [app/services/llm_followups.py] (module [Followups]) and
      - [app/routers/chatbot.py]        (module [Chatbot]),
    followed by the properties proved about them.

    Conventions of the embedding.
      - A Python [str] is a [string]; one character per ASCII code point.
        [lower], [strip] and the regular-expression classes are exact on
        ASCII text; a non-ASCII literal of the source is carried as its
        UTF-8 bytes.
      - A Python [int] is a [Z]; slices [l[:k]] follow Python for negative [k].
      - A call that may raise returns a [result]; [try ... except Exception]
        is a match on it.
      - Everything outside the two source files (configuration, the document
        store, the OpenAI clients, the answer provider, [json.loads]) is a
        field of the record [World]; the functions are total in a world. *)

From Stdlib Require Import String Ascii List ZArith NArith QArith Lia Bool.
Import ListNotations.
#[local] Set Warnings "-register-all".
Open Scope list_scope.
Open Scope string_scope.

(** ** Python built-ins used by the source *)

Module Py.

(** Exceptions carry their message only; no handler in the source
    inspects the class beyond [Exception]. *)
Inductive exn : Type := Exception (what : string).

Inductive result (A : Type) : Type :=
| Ok (a : A)
| Raise (e : exn).
Arguments Ok {A} a.
Arguments Raise {A} e.

Definition bind {A B} (r : result A) (f : A -> result B) : result B :=
  match r with
  | Ok a => f a
  | Raise e => Raise e
  end.

Declare Scope py_scope.
Delimit Scope py_scope with py.
Notation "x <- e ;; k" := (bind e (fun x => k))
  (at level 100, e at next level, right associativity) : py_scope.

(** [try: body except Exception: handler] *)
Definition try_except {A} (body : result A) (handler : exn -> result A)
  : result A :=
  match body with
  | Ok a => Ok a
  | Raise e => handler e
  end.

Definition newline : ascii := "010"%char.
Definition dquote : ascii := "034"%char.
Definition nl : string := String newline "".

(** [c.isspace()] on ASCII: TAB, LF, VT, FF, CR, FS, GS, RS, US, SPACE.
    The class [\s] of [re] on a [str] pattern is the same set. *)
Definition is_space (c : ascii) : bool :=
  let n := N_of_ascii c in
  ((9 <=? n) && (n <=? 13) || (28 <=? n) && (n <=? 32))%N.

Definition lower_char (c : ascii) : ascii :=
  let n := N_of_ascii c in
  if ((65 <=? n) && (n <=? 90))%N then ascii_of_N (n + 32) else c.

(** [s.lower()] *)
Fixpoint lower (s : string) : string :=
  match s with
  | "" => ""
  | String c r => String (lower_char c) (lower r)
  end.

Fixpoint lstrip (s : string) : string :=
  match s with
  | "" => ""
  | String c r => if is_space c then lstrip r else s
  end.

Fixpoint rstrip (s : string) : string :=
  match s with
  | "" => ""
  | String c r =>
      match rstrip r with
      | "" => if is_space c then "" else String c ""
      | r' => String c r'
      end
  end.

(** [s.strip()] *)
Definition strip (s : string) : string := rstrip (lstrip s).

(** [bool(s)] of a string *)
Definition truthy (s : string) : bool :=
  match s with "" => false | _ => true end.

(** [needle in hay] on strings *)
Fixpoint contains (needle hay : string) : bool :=
  String.prefix needle hay
  || match hay with
     | "" => false
     | String _ r => contains needle r
     end.

(** [s] without the prefix [p], when it starts with it. *)
Fixpoint after (p s : string) : option string :=
  match p, s with
  | "", _ => Some s
  | String a p', String b s' =>
      if Ascii.eqb a b then after p' s' else None
  | _, "" => None
  end.

(** [s.endswith(suffix)] *)
Definition endswith (s suffix : string) : bool :=
  let n := String.length s in
  let m := String.length suffix in
  (m <=? n)%nat && String.eqb (String.substring (n - m) m s) suffix.

(** [s[:-1]] *)
Fixpoint drop_last (s : string) : string :=
  match s with
  | "" => ""
  | String c "" => ""
  | String c r => String c (drop_last r)
  end.

(** [s[:n]] for a literal [n >= 0] *)
Definition str_upto (n : nat) (s : string) : string :=
  String.substring 0 n s.

(** [l[:k]] for any integer [k]: a negative [k] counts from the end. *)
Definition slice_upto {A} (k : Z) (l : list A) : list A :=
  if (0 <=? k)%Z then firstn (Z.to_nat k) l
  else firstn (List.length l - Z.to_nat (- k)) l.

(** [s.split(sep)] for a non-empty [sep]: the pieces between the
    non-overlapping occurrences of [sep], scanned from the left.  [skip]
    counts the characters of the occurrence being stepped over; the result
    is the piece under construction and the pieces after it. *)
Fixpoint split_go (sep s : string) (skip : nat) : string * list string :=
  match s with
  | "" => ("", [])
  | String c r =>
      match skip with
      | S n => split_go sep r n
      | O =>
          if String.prefix sep s
          then ("", let (h, t) := split_go sep r (String.length sep - 1)
                    in h :: t)
          else let (h, t) := split_go sep r 0 in (String c h, t)
      end
  end.

Definition split (s sep : string) : list string :=
  let (h, t) := split_go sep s 0 in h :: t.

(** [sep.join(l)] *)
Fixpoint join (sep : string) (l : list string) : string :=
  match l with
  | [] => ""
  | [x] => x
  | x :: r => x ++ sep ++ join sep r
  end.

(** [x in l] on a list of strings *)
Definition mem (x : string) (l : list string) : bool :=
  existsb (String.eqb x) l.

(** [any(k in text for k in keys)] *)
Definition any_in (keys : list string) (text : string) : bool :=
  existsb (fun k => contains k text) keys.

End Py.

(** ** The standard library's JSON decoder

    [json.loads] is not code of the repository; the functions of the source
    take it from the [World].  The decoder below is the instance used to run
    the model on concrete texts: the grammar of the CPython scanner (strict
    strings, [NaN] and the infinities accepted, nothing but white space after
    the value). *)

Module Json.
Import Py.

Inductive json : Type :=
| JNull
| JBool (b : bool)
| JNum (literal : string)
| JStr (s : string)
| JArr (items : list json)
| JObj (members : list (string * json)).

(** [isinstance(x, list)] and [isinstance(x, str)] *)
Definition is_list (v : json) : bool :=
  match v with JArr _ => true | _ => false end.

Definition is_str (v : json) : bool :=
  match v with JStr _ => true | _ => false end.

Definition is_ws (c : ascii) : bool :=
  let n := N_of_ascii c in
  ((n =? 32) || (n =? 9) || (n =? 10) || (n =? 13))%N.

Fixpoint skip_ws (s : string) : string :=
  match s with
  | "" => ""
  | String c r => if is_ws c then skip_ws r else s
  end.

Definition is_digit (c : ascii) : bool :=
  let n := N_of_ascii c in ((48 <=? n) && (n <=? 57))%N.

Definition hex_val (c : ascii) : option N :=
  let n := N_of_ascii c in
  if ((48 <=? n) && (n <=? 57))%N then Some (n - 48)%N
  else if ((97 <=? n) && (n <=? 102))%N then Some (n - 87)%N
  else if ((65 <=? n) && (n <=? 70))%N then Some (n - 55)%N
  else None.

Definition hex4 (a b c d : ascii) : option N :=
  match hex_val a, hex_val b, hex_val c, hex_val d with
  | Some x, Some y, Some z, Some w =>
      Some (((x * 16 + y) * 16 + z) * 16 + w)%N
  | _, _, _, _ => None
  end.

(** A decoded string before surrogate pairs are joined. *)
Inductive unit_ : Type :=
| Raw (c : ascii)
| Esc (code : N).

Definition simple_escape (c : ascii) : option ascii :=
  let n := N_of_ascii c in
  if (n =? 34)%N then Some c             (* quote *)
  else if (n =? 92)%N then Some c        (* backslash *)
  else if (n =? 47)%N then Some c        (* slash *)
  else if (n =? 98)%N then Some "008"%char
  else if (n =? 102)%N then Some "012"%char
  else if (n =? 110)%N then Some "010"%char
  else if (n =? 114)%N then Some "013"%char
  else if (n =? 116)%N then Some "009"%char
  else None.

(** The text after an opening quote: the units up to the closing quote
    and the text after it. *)
Fixpoint scan_units (s : string) : option (list unit_ * string) :=
  match s with
  | "" => None
  | String c r =>
      let n := N_of_ascii c in
      if (n =? 34)%N then Some ([], r)
      else if (n =? 92)%N then
        match r with
        | "" => None
        | String e r1 =>
            if (N_of_ascii e =? 117)%N then
              match r1 with
              | String h1 (String h2 (String h3 (String h4 r2))) =>
                  match hex4 h1 h2 h3 h4, scan_units r2 with
                  | Some u, Some (us, rest) => Some (Esc u :: us, rest)
                  | _, _ => None
                  end
              | _ => None
              end
            else
              match simple_escape e, scan_units r1 with
              | Some x, Some (us, rest) => Some (Raw x :: us, rest)
              | _, _ => None
              end
        end
      else if (n <? 32)%N then None
      else
        match scan_units r with
        | Some (us, rest) => Some (Raw c :: us, rest)
        | None => None
        end
  end.

Definition byte (n : N) : ascii := ascii_of_N n.

Definition utf8 (u : N) : string :=
  if (u <? 128)%N then String (byte u) ""
  else if (u <? 2048)%N then
    String (byte (192 + u / 64)) (String (byte (128 + u mod 64)) "")
  else if (u <? 65536)%N then
    String (byte (224 + u / 4096))
      (String (byte (128 + (u / 64) mod 64))
         (String (byte (128 + u mod 64)) ""))
  else
    String (byte (240 + u / 262144))
      (String (byte (128 + (u / 4096) mod 64))
         (String (byte (128 + (u / 64) mod 64))
            (String (byte (128 + u mod 64)) ""))).

Definition is_high (u : N) : bool := ((55296 <=? u) && (u <=? 56319))%N.
Definition is_low (u : N) : bool := ((56320 <=? u) && (u <=? 57343))%N.

Fixpoint text_of_units (us : list unit_) : string :=
  match us with
  | [] => ""
  | Raw c :: r => String c (text_of_units r)
  | Esc hi :: r =>
      match r with
      | Esc lo :: r' =>
          if is_high hi && is_low lo
          then utf8 (65536 + (hi - 55296) * 1024 + (lo - 56320))
               ++ text_of_units r'
          else utf8 hi ++ text_of_units r
      | _ => utf8 hi ++ text_of_units r
      end
  end.

Definition scan_string (s : string) : option (string * string) :=
  match scan_units s with
  | Some (us, rest) => Some (text_of_units us, rest)
  | None => None
  end.

(** The longest run of decimal digits at the head of [s]. *)
Fixpoint take_digits (s : string) : string * string :=
  match s with
  | "" => ("", "")
  | String c r =>
      if is_digit c
      then let (d, rest) := take_digits r in (String c d, rest)
      else ("", s)
  end.

(** The number pattern of the scanner at the head of [s]: an optional
    minus sign, then [0] or a digit run without leading zero, then
    optionally a point with digits, then optionally an exponent.  Each
    part returns the literal matched and the text after it. *)
Definition scan_int (s : string) : option (string * string) :=
  match s with
  | String c r =>
      if (N_of_ascii c =? 48)%N then Some (String c "", r)
      else if is_digit c
           then let (d, rest) := take_digits r in Some (String c d, rest)
           else None
  | "" => None
  end.

Definition scan_frac (s : string) : string * string :=
  match s with
  | String c r =>
      if (N_of_ascii c =? 46)%N then
        match take_digits r with
        | ("", _) => ("", s)
        | (d, rest) => (String c d, rest)
        end
      else ("", s)
  | "" => ("", s)
  end.

Definition scan_exp (s : string) : string * string :=
  match s with
  | String e r =>
      if ((N_of_ascii e =? 101) || (N_of_ascii e =? 69))%N then
        match r with
        | String sg r1 =>
            if ((N_of_ascii sg =? 43) || (N_of_ascii sg =? 45))%N then
              match take_digits r1 with
              | ("", _) => ("", s)
              | (d, rest) => (String e (String sg d), rest)
              end
            else
              match take_digits r with
              | ("", _) => ("", s)
              | (d, rest) => (String e d, rest)
              end
        | "" => ("", s)
        end
      else ("", s)
  | "" => ("", s)
  end.

Definition scan_number (s : string) : option (string * string) :=
  let (sign, body) :=
    match s with
    | String c r => if (N_of_ascii c =? 45)%N then ("-", r) else ("", s)
    | "" => ("", s)
    end in
  match scan_int body with
  | None => None
  | Some (i, r1) =>
      let (f, r2) := scan_frac r1 in
      let (e, r3) := scan_exp r2 in
      Some (sign ++ i ++ f ++ e, r3)
  end.

Definition scan_keyword (s : string) : option (json * string) :=
  match after "null" s with
  | Some r => Some (JNull, r)
  | None =>
  match after "true" s with
  | Some r => Some (JBool true, r)
  | None =>
  match after "false" s with
  | Some r => Some (JBool false, r)
  | None =>
  match after "NaN" s with
  | Some r => Some (JNum "NaN", r)
  | None =>
  match after "Infinity" s with
  | Some r => Some (JNum "Infinity", r)
  | None =>
  match after "-Infinity" s with
  | Some r => Some (JNum "-Infinity", r)
  | None => None
  end end end end end end.

(** [scan_once]: one value at the head of [s].  Every step down the
    fuel either reads a character or goes from an element list to its
    first element, so [2 * length s + 2] is never exhausted. *)
Fixpoint scan_once (fuel : nat) (s : string) : option (json * string) :=
  match fuel with
  | O => None
  | S f =>
      match s with
      | "" => None
      | String c r =>
          let n := N_of_ascii c in
          if (n =? 34)%N then
            match scan_string r with
            | Some (t, rest) => Some (JStr t, rest)
            | None => None
            end
          else if (n =? 91)%N then
            match skip_ws r with
            | String c1 r1 =>
                if (N_of_ascii c1 =? 93)%N then Some (JArr [], r1)
                else
                  match scan_elements f (skip_ws r) with
                  | Some (vs, rest) => Some (JArr vs, rest)
                  | None => None
                  end
            | "" => None
            end
          else if (n =? 123)%N then
            match skip_ws r with
            | String c1 r1 =>
                if (N_of_ascii c1 =? 125)%N then Some (JObj [], r1)
                else
                  match scan_members f (skip_ws r) with
                  | Some (ms, rest) => Some (JObj ms, rest)
                  | None => None
                  end
            | "" => None
            end
          else
            match scan_keyword s with
            | Some x => Some x
            | None =>
                match scan_number s with
                | Some (lit, rest) => Some (JNum lit, rest)
                | None => None
                end
            end
      end
  end

with scan_elements (fuel : nat) (s : string)
  : option (list json * string) :=
  match fuel with
  | O => None
  | S f =>
      match scan_once f s with
      | None => None
      | Some (v, r) =>
          match skip_ws r with
          | String c r1 =>
              if (N_of_ascii c =? 93)%N then Some ([v], r1)
              else if (N_of_ascii c =? 44)%N then
                match scan_elements f (skip_ws r1) with
                | Some (vs, rest) => Some (v :: vs, rest)
                | None => None
                end
              else None
          | "" => None
          end
      end
  end

with scan_members (fuel : nat) (s : string)
  : option (list (string * json) * string) :=
  match fuel with
  | O => None
  | S f =>
      match s with
      | String q r0 =>
          if (N_of_ascii q =? 34)%N then
            match scan_string r0 with
            | None => None
            | Some (key, r) =>
                match skip_ws r with
                | String c r1 =>
                    if (N_of_ascii c =? 58)%N then
                      match scan_once f (skip_ws r1) with
                      | None => None
                      | Some (v, r2) =>
                          match skip_ws r2 with
                          | String d r3 =>
                              if (N_of_ascii d =? 125)%N
                              then Some ([(key, v)], r3)
                              else if (N_of_ascii d =? 44)%N then
                                match scan_members f (skip_ws r3) with
                                | Some (ms, rest) =>
                                    Some ((key, v) :: ms, rest)
                                | None => None
                                end
                              else None
                          | "" => None
                          end
                      end
                    else None
                | "" => None
                end
            end
          else None
      | "" => None
      end
  end.

(** [json.loads(s)] *)
Definition loads (s : string) : result json :=
  match scan_once (2 * String.length s + 2) (skip_ws s) with
  | Some (v, rest) =>
      match skip_ws rest with
      | "" => Ok v
      | _ => Raise (Exception "JSONDecodeError: Extra data")
      end
  | None => Raise (Exception "JSONDecodeError: Expecting value")
  end.

End Json.

(** ** What lies outside the two source files *)

Module Env.
Import Py.

(** [app.core.config.settings], the fields the source reads. *)
Record Settings : Type := {
  use_llm_followups : bool;
  openai_api_key : string;
  followup_model : string;
  debug_followups : bool
}.

(** A document of the knowledge base as projected by the text search;
    [title] is [None] when the key is absent or null. *)
Record Hit : Type := {
  title : option string;
  category : string;
  url : string
}.

Record Message : Type := {
  role : string;
  content : string
}.

Record World : Type := {
  settings : Settings;
  (** [os.getenv("FOLLOWUP_MODEL_LEGACY")] *)
  env_followup_model_legacy : option string;
  (** the sorted cursor of [kb_collection.find] for a [$text] query *)
  kb_find : string -> list Hit;
  (** [OpenAI().chat.completions.create(...)] down to the content of the
      first choice: model, messages, temperature, max_tokens *)
  openai_v1 : string -> list Message -> Q -> Z -> result string;
  (** [openai.ChatCompletion.create(...)], likewise *)
  openai_v0 : string -> list Message -> Q -> Z -> result string;
  json_loads : string -> result Json.json;
  (** [rag_pipeline.get_answer]: the answer of the pair it returns *)
  get_answer : string -> result (option string);
  (** [rag_pipeline.get_answer_stream]: the chunks it yields *)
  get_answer_stream : string -> list string
}.

End Env.

(** ** app/services/llm_followups.py *)

Module Followups.
Import Py Json Env.

Definition ESCALATION_KEYWORDS : list string :=
  [ "agent"; "human"; "person"; "representative"; "talk to someone";
    "talk to admin"; "live chat"; "connect me"; "escalate"; "call";
    "phone"; "help desk"; "support" ].

Definition repr (e : exn) : string :=
  match e with Exception what => what end.

Definition llm_complete (w : World) (messages : list Message)
  (model : string) (temperature : Q) (max_tokens : Z) : result string :=
  match openai_v1 w model messages temperature max_tokens with
  | Ok text => Ok (strip text)
  | Raise v1_err =>
      let legacy_model :=
        match env_followup_model_legacy w with
        | Some m => m
        | None => "gpt-3.5-turbo"
        end in
      match openai_v0 w legacy_model messages temperature max_tokens with
      | Ok text => Ok (strip text)
      | Raise v0_err =>
          Raise (Exception ("OpenAI failed (v1: " ++ repr v1_err
                            ++ "; v0: " ++ repr v0_err ++ ")"))
      end
  end.

Definition _wants_human (text : string) : bool :=
  let q := lower text in
  any_in ESCALATION_KEYWORDS q.

Definition _mongo_text_search (w : World) (query : string) (limit : nat)
  : list Hit :=
  if negb (truthy query && truthy (strip query)) then []
  else firstn limit (kb_find w query).

Definition low_conf : list string :=
  [ "i'm not sure"; "no information"; "could not find"; "not available";
    "i don't have"; "unable to find" ].

Definition _should_offer_live_chat (user_q answer_text : string)
  (hits : nat) : bool :=
  if _wants_human user_q then true
  else
    let a := lower answer_text in
    any_in low_conf a.

(** [[str(x) for x in data if isinstance(x, str)]] *)
Fixpoint strings_of (data : list json) : list string :=
  match data with
  | [] => []
  | JStr x :: r => x :: strings_of r
  | _ :: r => strings_of r
  end.

(** The rest of a match of the pattern below after its opening bracket:
    the star is greedy, so the match ends at the last closing bracket. *)
Fixpoint upto_last_rbracket (s : string) : option string :=
  match s with
  | "" => None
  | String c r =>
      match upto_last_rbracket r with
      | Some m => Some (String c m)
      | None => if Ascii.eqb c "]" then Some (String c "") else None
      end
  end.

(** [re.search] of an opening bracket, any characters, a closing bracket:
    group 0 of the leftmost match. *)
Fixpoint search_bracketed (s : string) : option string :=
  match s with
  | "" => None
  | String c r =>
      if Ascii.eqb c "["
      then match upto_last_rbracket r with
           | Some m => Some (String c m)
           | None => search_bracketed r
           end
      else search_bracketed r
  end.

Definition _safe_json_list (w : World) (s : string) : list string :=
  if negb (truthy s) then []
  else
    let direct :=
      match json_loads w s with
      | Ok data =>
          match data with                        (* isinstance(data, list) *)
          | JArr xs => Some (strings_of xs)
          | _ => None
          end
      | Raise _ => None                          (* except: pass *)
      end in
    match direct with
    | Some r => r
    | None =>
        match search_bracketed s with
        | Some frag =>
            match json_loads w frag with
            | Ok data =>
                match data with                  (* isinstance(data, list) *)
                | JArr xs => strings_of xs
                | _ => []
                end
            | Raise _ => []
            end
        | None => []
        end
    end.

Definition or_empty (o : option string) : string :=
  match o with Some s => s | None => "" end.

(** The lines of the prompt context, one per candidate with a title. *)
Fixpoint ctx_lines_of (candidates : list Hit) : list string :=
  match candidates with
  | [] => []
  | c :: r =>
      let t := strip (or_empty (title c)) in
      let u := url c in
      let cat := category c in
      if truthy t
      then ("- " ++ t ++ " [" ++ cat ++ "] " ++ u) :: ctx_lines_of r
      else ctx_lines_of r
  end.

Definition followup_sys : string :=
  "You are a campus assistant crafting follow-up suggestions that feel like the student's next question. "
  ++ "Return ONLY a JSON array of 3-5 strings. Constraints: "
  ++ "1) Each suggestion must be a natural, concise user question (max ~10 words). "
  ++ "2) Avoid vague labels and categories; be specific. "
  ++ "3) No duplicates, no punctuation at the end, no numbering. "
  ++ "4) Suggestions must be answerable by the provided knowledge items when possible.".

Definition followup_usr (user_q answer_text ctx : string) : string :=
  "Student question: " ++ user_q ++ nl ++ nl
  ++ "Assistant answer:" ++ nl ++ answer_text ++ nl ++ nl
  ++ "Relevant knowledge items:" ++ nl ++ ctx ++ nl ++ nl
  ++ "Produce a JSON array of short follow-up questions likely to be asked next.".

(** The loop over [items]: [uniq] and [seen] are the two accumulators, the
    test on [len(uniq)] comes after each item. *)
Fixpoint uniq_loop (items : list string) (uniq seen : list string) (k : Z)
  : list string :=
  match items with
  | [] => uniq
  | it :: rest =>
      let s := strip it in
      let s := if endswith s "?" then drop_last s else s in
      let '(uniq, seen) :=
        if truthy s && negb (mem (lower s) seen)
        then ((uniq ++ [s])%list, lower s :: seen)
        else (uniq, seen) in
      if (Z.of_nat (List.length uniq) >=? k)%Z then uniq
      else uniq_loop rest uniq seen k
  end.

Definition _llm_generate_followups (w : World) (user_q answer_text : string)
  (candidates : list Hit) (k : Z) : result (list string) :=
  let ctx_lines := ctx_lines_of (firstn 10 candidates) in
  let ctx :=
    match ctx_lines with
    | [] => "(no candidates)"
    | _ => join nl ctx_lines
    end in
  let sys := followup_sys in
  let usr := followup_usr user_q answer_text ctx in
  (text <- llm_complete w
             [ {| role := "system"; content := sys |};
               {| role := "user"; content := usr |} ]
             (followup_model (settings w)) 0.4%Q 180%Z ;;
   let items := _safe_json_list w text in
   Ok (uniq_loop items [] [] k))%py.

Inductive Payload : Type :=
| Faq (query : string)          (* {"type": "faq", "query": query} *)
| Action (action : string).     (* {"type": "action", "action": action} *)

Record Chip : Type := {
  label : string;
  payload : Payload
}.

(** [[h.get("title", "") for h in hits if h.get("title")]] *)
Fixpoint titles_of (hits : list Hit) : list string :=
  match hits with
  | [] => []
  | h :: r =>
      match title h with
      | Some t => if truthy t then t :: titles_of r else titles_of r
      | None => titles_of r
      end
  end.

Definition generic_suggestions : list string :=
  [ "application deadlines for scholarships";
    "GPA needed for freshman admission";
    "who is my admissions counselor";
    "how to apply for scholarships" ].

Definition nonempty {A} (l : list A) : bool :=
  match l with [] => false | _ => true end.

Definition build_llm_style_followups (w : World)
  (user_question answer_text : string) (k : Z)
  : list Chip * bool * string :=
  let hits := _mongo_text_search w user_question 8 in
  let hits :=
    if negb (nonempty hits) && truthy answer_text
    then _mongo_text_search w answer_text 8
    else hits in
  let '(suggestions, source) :=
    if use_llm_followups (settings w)
       && truthy (openai_api_key (settings w))
    then
      match _llm_generate_followups w user_question answer_text hits k with
      | Ok suggestions =>
          if nonempty suggestions then (suggestions, "openai")
          else (suggestions, "fallback")
      | Raise exc => ([], "fallback_error")
      end
    else ([], "fallback") in
  let suggestions :=
    if negb (nonempty suggestions) then
      let base := titles_of (firstn 6 hits) in
      let suggestions :=
        slice_upto k (filter truthy base) in
      if negb (nonempty suggestions)
      then slice_upto k generic_suggestions
      else suggestions
    else suggestions in
  let chips :=
    map (fun s => {| label := s; payload := Faq s |}) suggestions in
  let suggest_live_chat :=
    _should_offer_live_chat user_question answer_text (List.length hits) in
  (slice_upto k chips, suggest_live_chat, source).

End Followups.

(** ** app/routers/chatbot.py *)

(** The dictionaries the handlers build, one record each. *)

Module Building.
Record t : Type := {
  name : string;
  lat : Q;
  lng : Q;
  address : string;
  description : string;
  hours : string
}.
End Building.

Module Place.
Record t : Type := {
  name : string;
  lat : Q;
  lng : Q
}.
End Place.

Module Ticket.
Record t : Type := {
  subject : string;
  category : string;
  priority : string;
  description : string
}.
End Ticket.

Module Answer.
Record t : Type := {
  answer : option string;
  suggest_live_chat : bool;
  suggested_followups : list Followups.Chip;
  (** present only under [settings.debug_followups] *)
  followup_generator : option string
}.
End Answer.

Module MapReply.
Record t : Type := {
  location : option Building.t;
  description : string
}.
End MapReply.

Module RouteReply.
Record t : Type := {
  origin : option Place.t;
  destination : option Place.t;
  found : bool;
  (** present only when nothing was found *)
  message : option string
}.
End RouteReply.

Module Chatbot.
Import Py Env Followups.

Definition admin_chip : Chip :=
  {| label := "Talk to an admin"; payload := Action "escalate" |}.

Definition chat_question (w : World) (question : string)
  : result Answer.t :=
  (answer <- get_answer w question ;;
   let '(chips, suggest_live_chat, fu_source) :=
     build_llm_style_followups w question (or_empty answer) 4 in
   let chips := if suggest_live_chat then [admin_chip] else chips in
   Ok {| Answer.answer := answer;
         Answer.suggest_live_chat := suggest_live_chat;
         Answer.suggested_followups := chips;
         Answer.followup_generator :=
           if debug_followups (settings w) then Some fu_source
           else None |})%py.

(** What [event_generator] yields: an event stands for the frame
    [data: <json.dumps of the dictionary>] closed by an empty line. *)
Inductive Event : Type :=
| Chunk (content : string)
| FollowupsEvent (suggest_live_chat : bool)
    (suggested_followups : list Chip) (followup_generator : option string)
| Done.

(** The loop over the chunks of the provider: the events yielded and
    [full_answer] when the provider is exhausted. *)
Fixpoint chunk_loop (chunks : list string) (full_answer : string)
  : list Event * string :=
  match chunks with
  | [] => ([], full_answer)
  | chunk :: rest =>
      let full_answer := full_answer ++ chunk in
      let (events, final) := chunk_loop rest full_answer in
      (Chunk chunk :: events, final)
  end.

Definition followup_data (w : World) (question full_answer : string)
  : Event :=
  let '(chips, suggest_live_chat, fu_source) :=
    build_llm_style_followups w question full_answer 4 in
  let chips := if suggest_live_chat then [admin_chip] else chips in
  FollowupsEvent suggest_live_chat chips
    (if debug_followups (settings w) then Some fu_source else None).

Definition event_generator (w : World) (question : string) : list Event :=
  let (events, full_answer) :=
    chunk_loop (get_answer_stream w question) "" in
  (events ++ [followup_data w question full_answer; Done])%list.

(** *** Ticket extraction *)

Definition analysis_prompt (message : string) : string :=
  let indent := "        " in
  nl ++ indent
  ++ "Analyze the following user message and extract ticket information."
  ++ nl ++ nl ++ indent
  ++ "User message: " ++ String dquote message ++ String dquote ""
  ++ nl ++ nl ++ indent
  ++ "Extract the following:" ++ nl ++ indent
  ++ "1. Subject: A brief subject line (max 100 chars)" ++ nl ++ indent
  ++ "2. Category: One of (Technical Support, Academic, Financial, Housing, Registration, Other)"
  ++ nl ++ indent
  ++ "3. Priority: One of (Low, Medium, High) - based on urgency in the message"
  ++ nl ++ indent
  ++ "4. A clear description of the issue" ++ nl ++ nl ++ indent
  ++ "Respond in this exact format:" ++ nl ++ indent
  ++ "SUBJECT: [subject]" ++ nl ++ indent
  ++ "CATEGORY: [category]" ++ nl ++ indent
  ++ "PRIORITY: [priority]" ++ nl ++ indent
  ++ "DESCRIPTION: [description]" ++ nl ++ indent.

(** Greedy [.+] at the head of [s]: up to the next line feed, or, with
    [re.DOTALL], to the end of the text; at least one character. *)
Fixpoint take_line (s : string) : string :=
  match s with
  | "" => ""
  | String c r =>
      if Ascii.eqb c newline then "" else String c (take_line r)
  end.

Definition dot_plus (dotall : bool) (s : string) : option string :=
  let g := if dotall then s else take_line s in
  if truthy g then Some g else None.

(** Greedy white space, then the group [(.+)]: the white space gives
    characters back one at a time when the group cannot start. *)
Fixpoint spaces_then_group (dotall : bool) (s : string) : option string :=
  match s with
  | "" => None
  | String c r =>
      if is_space c
      then match spaces_then_group dotall r with
           | Some g => Some g
           | None => dot_plus dotall s
           end
      else dot_plus dotall s
  end.

(** [re.search] of a label, white space and [(.+)]: group 1 of the
    leftmost match. *)
Fixpoint search_field (label : string) (dotall : bool) (text : string)
  : option string :=
  let here :=
    match after label text with
    | Some rest => spaces_then_group dotall rest
    | None => None
    end in
  match here with
  | Some g => Some g
  | None =>
      match text with
      | "" => None
      | String _ r => search_field label dotall r
      end
  end.

Definition valid_categories : list string :=
  [ "Technical Support"; "Academic"; "Financial"; "Housing";
    "Registration"; "Other" ].

Definition valid_priorities : list string := [ "Low"; "Medium"; "High" ].

Definition group_or (m : option string) (default : string) : string :=
  match m with
  | Some g => strip g
  | None => default
  end.

Definition analyze_ticket_request (w : World) (message : string)
  : result Ticket.t :=
  try_except
    (answer <- get_answer w (analysis_prompt message) ;;
       match answer with
       | None => Raise (Exception "TypeError: expected string")
       | Some answer =>
           let subject_match := search_field "SUBJECT:" false answer in
           let category_match := search_field "CATEGORY:" false answer in
           let priority_match := search_field "PRIORITY:" false answer in
           let description_match :=
             search_field "DESCRIPTION:" true answer in
           let subject := group_or subject_match "Support Request" in
           let category := group_or category_match "Other" in
           let priority := group_or priority_match "Medium" in
           let description :=
             match description_match with
             | Some g => strip g
             | None => message
             end in
           let category :=
             if negb (mem category valid_categories) then "Other"
             else category in
           let priority :=
             if negb (mem priority valid_priorities) then "Medium"
             else priority in
           Ok {| Ticket.subject := str_upto 100 subject;
                 Ticket.category := category;
                 Ticket.priority := priority;
                 Ticket.description := description |}
       end)%py
    (fun exc =>
       Ok {| Ticket.subject := "Support Request";
             Ticket.category := "Other";
             Ticket.priority := "Medium";
             Ticket.description := message |}).

(** *** Map lookup

    The alias table of [analyze_map_request] in declaration order; the
    records are named once and shared by the aliases that repeat them. *)

Definition mary_and_jeff_bell_library : Building.t :=
  {| Building.name := "Mary and Jeff Bell Library";
     Building.lat := 27.713788736691168%Q;
     Building.lng := (-97.32474868648656)%Q;
     Building.address := "Mary and Jeff Bell Library, TAMUCC";
     Building.description := "Main library with study spaces and research resources";
     Building.hours := "Mon-Fri 7:30am-11pm" |}.

Definition university_center : Building.t :=
  {| Building.name := "University Center (UC)";
     Building.lat := 27.712071037382053%Q;
     Building.lng := (-97.3257065414334)%Q;
     Building.address := "University Center, TAMUCC";
     Building.description := "Student hub with dining, bookstore, and meeting spaces";
     Building.hours := "Mon-Fri 7am-10pm" |}.

Definition islander_dining : Building.t :=
  {| Building.name := "Islander Dining";
     Building.lat := 27.711621676963894%Q;
     Building.lng := (-97.32258737277509)%Q;
     Building.address := "Islander Dining, TAMUCC";
     Building.description := "Main dining hall with multiple food stations";
     Building.hours := "Daily 7am-9pm" |}.

Definition natural_resources_center : Building.t :=
  {| Building.name := "Natural Resources Center (NRC)";
     Building.lat := 27.715332468715157%Q;
     Building.lng := (-97.32880933649331)%Q;
     Building.address := "Natural Resources Center, TAMUCC";
     Building.description := "Environmental science and research facility";
     Building.hours := "Mon-Fri 8am-5pm" |}.

Definition engineering_building : Building.t :=
  {| Building.name := "Engineering Building";
     Building.lat := 27.712772225261283%Q;
     Building.lng := (-97.32565431063824)%Q;
     Building.address := "Engineering Building, TAMUCC";
     Building.description := "College of Engineering classrooms and labs";
     Building.hours := "Mon-Fri 8am-6pm" |}.

Definition corpus_christi_hall : Building.t :=
  {| Building.name := "Corpus Christi Hall (CCH)";
     Building.lat := 27.71516058584113%Q;
     Building.lng := (-97.32370567166191)%Q;
     Building.address := "Corpus Christi Hall, TAMUCC";
     Building.description := "Admissions, financial aid, and student services";
     Building.hours := "Mon-Fri 8am-5pm" |}.

Definition student_services_center : Building.t :=
  {| Building.name := "Student Services Center";
     Building.lat := 27.71374042156452%Q;
     Building.lng := (-97.32390201020142)%Q;
     Building.address := "Student Services Center, TAMUCC";
     Building.description := "Student support services and administration";
     Building.hours := "Mon-Fri 8am-5pm" |}.

Definition bay_hall : Building.t :=
  {| Building.name := "Bay Hall";
     Building.lat := 27.713613491472024%Q;
     Building.lng := (-97.32348514338884)%Q;
     Building.address := "Bay Hall, TAMUCC";
     Building.description := "Business college classrooms and faculty offices";
     Building.hours := "Mon-Fri 8am-5pm" |}.

Definition center_for_the_sciences : Building.t :=
  {| Building.name := "Center for the Sciences";
     Building.lat := 27.712809298665885%Q;
     Building.lng := (-97.32486990268086)%Q;
     Building.address := "Center for the Sciences, TAMUCC";
     Building.description := "Science labs and classrooms";
     Building.hours := "Mon-Fri 8am-6pm" |}.

Definition college_of_education_and_human_development : Building.t :=
  {| Building.name := "College of Education and Human Development";
     Building.lat := 27.713186318706956%Q;
     Building.lng := (-97.32428916719182)%Q;
     Building.address := "College of Education and Human Development, TAMUCC";
     Building.description := "Education college offices and classrooms";
     Building.hours := "Mon-Fri 8am-5pm" |}.

Definition faculty_center : Building.t :=
  {| Building.name := "Faculty Center";
     Building.lat := 27.712820723536026%Q;
     Building.lng := (-97.32358260567656)%Q;
     Building.address := "Faculty Center, TAMUCC";
     Building.description := "Faculty offices and meeting rooms";
     Building.hours := "Mon-Fri 8am-5pm" |}.

Definition dugan_wellness_center : Building.t :=
  {| Building.name := "Dugan Wellness Center";
     Building.lat := 27.711601112024837%Q;
     Building.lng := (-97.32413753070178)%Q;
     Building.address := "Dugan Wellness Center, TAMUCC";
     Building.description := "Student health services and counseling";
     Building.hours := "Mon-Fri 8am-5pm" |}.

Definition college_of_business : Building.t :=
  {| Building.name := "College of Business";
     Building.lat := 27.714591440638948%Q;
     Building.lng := (-97.32466461335527)%Q;
     Building.address := "College of Business, TAMUCC";
     Building.description := "College of Business and entrepreneurship programs";
     Building.hours := "Mon-Fri 8am-5pm" |}.

Definition tidal_hall : Building.t :=
  {| Building.name := "Tidal Hall";
     Building.lat := 27.715529412703646%Q;
     Building.lng := (-97.32710819211944)%Q;
     Building.address := "Tidal Hall, TAMUCC";
     Building.description := "Student housing residence hall";
     Building.hours := "24/7 for residents" |}.

Definition harte_research_institute : Building.t :=
  {| Building.name := "Harte Research Institute";
     Building.lat := 27.713459500631362%Q;
     Building.lng := (-97.32815759566772)%Q;
     Building.address := "Harte Research Institute, TAMUCC";
     Building.description := "Gulf of Mexico research and marine science";
     Building.hours := "Mon-Fri 8am-5pm" |}.

Definition university_counseling_center : Building.t :=
  {| Building.name := "University Counseling Center";
     Building.lat := 27.712490577148014%Q;
     Building.lng := (-97.32168122550681)%Q;
     Building.address := "University Counseling Center, TAMUCC";
     Building.description := "Mental health and counseling services for students";
     Building.hours := "Mon-Fri 8am-5pm" |}.

Definition buildings : list (string * Building.t) :=
  [ ("library", mary_and_jeff_bell_library);
    ("university center", university_center);
    ("uc", university_center);
    ("dining", islander_dining);
    ("islander dining", islander_dining);
    ("natural resources", natural_resources_center);
    ("nrc", natural_resources_center);
    ("engineering", engineering_building);
    ("corpus christi hall", corpus_christi_hall);
    ("cch", corpus_christi_hall);
    ("student services", student_services_center);
    ("bay hall", bay_hall);
    ("sciences", center_for_the_sciences);
    ("center for sciences", center_for_the_sciences);
    ("education", college_of_education_and_human_development);
    ("faculty center", faculty_center);
    ("wellness", dugan_wellness_center);
    ("dugan", dugan_wellness_center);
    ("health", dugan_wellness_center);
    ("business", college_of_business);
    ("tidal hall", tidal_hall);
    ("harte", harte_research_institute);
    ("counseling", university_counseling_center);
    ("counseling center", university_counseling_center) ].

(** The pin emoji that opens the description, as UTF-8. *)
Definition pin : string :=
  String "240" (String "159" (String "147" (String "141" ""))).

Definition located (building : Building.t) : MapReply.t :=
  {| MapReply.location := Some building;
     MapReply.description :=
       pin ++ " Here's the location of the **" ++ Building.name building
       ++ "**. " ++ Building.description building ++ "." |}.

Definition full_map : MapReply.t :=
  {| MapReply.location := None;
     MapReply.description :=
       "Here's the TAMUCC campus map showing all major buildings." |}.

(** The loop over [buildings.items()]: [Some] is its [return]. *)
Fixpoint map_loop (message : string) (items : list (string * Building.t))
  : option MapReply.t :=
  match items with
  | [] => None
  | (key, building) :: rest =>
      if contains key message
         || contains (lower (Building.name building)) message
      then Some (located building)
      else map_loop message rest
  end.

Definition http_500 (detail : string) : exn :=
  Exception ("HTTPException 500: " ++ detail).

Definition analyze_map_request (request_message : string)
  : result MapReply.t :=
  try_except
    (let message := lower request_message in
     match map_loop message buildings with
     | Some reply => Ok reply
     | None => Ok full_map
     end)
    (fun exc => Raise (http_500 "Failed to analyze map request")).

(** *** Routing lookup

    The table of [analyze_routing_request]: the same aliases in the same
    order, each record cut to its name and coordinates. *)

Definition place_of (b : Building.t) : Place.t :=
  {| Place.name := Building.name b;
     Place.lat := Building.lat b;
     Place.lng := Building.lng b |}.

Definition routing_buildings : list (string * Place.t) :=
  map (fun kb => (fst kb, place_of (snd kb))) buildings.

Definition routing_patterns : list (string * string) :=
  [ ("from", "to"); ("between", "and"); ("get to", "from") ].

(** The inner loop over [buildings.items()]: no [break], every matching
    alias assigns. *)
Fixpoint alias_loop (items : list (string * Place.t))
  (origin_text dest_text : string) (origin destination : option Place.t)
  : option Place.t * option Place.t :=
  match items with
  | [] => (origin, destination)
  | (key, building) :: rest =>
      let origin :=
        if contains key origin_text || String.eqb key origin_text
        then Some building else origin in
      let destination :=
        if contains key dest_text || String.eqb key dest_text
        then Some building else destination in
      alias_loop rest origin_text dest_text origin destination
  end.

(** The body of the loop over [routing_patterns] for one pattern. *)
Definition pattern_step (message : string) (pattern : string * string)
  (origin destination : option Place.t)
  : option Place.t * option Place.t :=
  if contains (fst pattern) message && contains (snd pattern) message then
    let parts := split message (fst pattern) in
    if (1 <? List.length parts)%nat then
      let second_part := split (nth 1 parts "") (snd pattern) in
      if (1 <? List.length second_part)%nat then
        let origin_text := strip (nth 0 second_part "") in
        let dest_text := strip (nth 1 second_part "") in
        alias_loop routing_buildings origin_text dest_text
          origin destination
      else (origin, destination)
    else (origin, destination)
  else (origin, destination).

Fixpoint pattern_loop (message : string) (patterns : list (string * string))
  (origin destination : option Place.t)
  : option Place.t * option Place.t :=
  match patterns with
  | [] => (origin, destination)
  | pattern :: rest =>
      let (origin, destination) :=
        pattern_step message pattern origin destination in
      pattern_loop message rest origin destination
  end.

Definition guidance : string :=
  "I couldn't identify both the origin and destination buildings. Please specify like 'directions from Library to UC' or 'how to get from NRC to Wellness Center'.".

Definition analyze_routing_request (request_message : string)
  : result RouteReply.t :=
  try_except
    (let message := lower request_message in
     let (origin, destination) :=
       pattern_loop message routing_patterns None None in
     match origin, destination with
     | Some o, Some d =>
         Ok {| RouteReply.origin := Some o;
               RouteReply.destination := Some d;
               RouteReply.found := true;
               RouteReply.message := None |}
     | _, _ =>
         Ok {| RouteReply.origin := None;
               RouteReply.destination := None;
               RouteReply.found := false;
               RouteReply.message := Some guidance |}
     end)
    (fun exc => Raise (http_500 "Failed to analyze routing request")).

End Chatbot.

(** * Vocabulary of the properties *)

Import Py Json Env Followups Chatbot.

(** [phrase] is a substring of [text]. *)
Definition occurs_in (phrase text : string) : Prop :=
  exists pre post, text = pre ++ phrase ++ post.

(** The three components of what [build_llm_style_followups] returns. *)
Definition chips_of (r : list Chip * bool * string) : list Chip := fst (fst r).
Definition escalate_of (r : list Chip * bool * string) : bool := snd (fst r).
Definition source_of (r : list Chip * bool * string) : string := snd r.

(** Worlds to run the model in. *)
Module Examples.

Definition unreachable : exn := Exception "ConnectionError".

(** No language model: follow-ups come from the knowledge base alone. *)
Definition offline (hits : list Hit) (chunks : list string) : World :=
  {| settings :=
       {| use_llm_followups := false;
          openai_api_key := "";
          followup_model := "gpt-4o-mini";
          debug_followups := false |};
     env_followup_model_legacy := None;
     kb_find := fun _ => hits;
     openai_v1 := fun _ _ _ _ => Raise unreachable;
     openai_v0 := fun _ _ _ _ => Raise unreachable;
     json_loads := Json.loads;
     get_answer := fun _ => Ok (Some (String.concat "" chunks));
     get_answer_stream := fun _ => chunks |}.

(** A language model that completes every prompt with [reply]. *)
Definition scripted (reply : string) (hits : list Hit)
  (chunks : list string) : World :=
  {| settings :=
       {| use_llm_followups := true;
          openai_api_key := "sk-test";
          followup_model := "gpt-4o-mini";
          debug_followups := true |};
     env_followup_model_legacy := None;
     kb_find := fun _ => hits;
     openai_v1 := fun _ _ _ _ => Ok reply;
     openai_v0 := fun _ _ _ _ => Raise unreachable;
     json_loads := Json.loads;
     get_answer := fun _ => Ok (Some (String.concat "" chunks));
     get_answer_stream := fun _ => chunks |}.

(** An answer provider that raises on every call. *)
Definition provider_down : World :=
  {| settings := settings (offline [] []);
     env_followup_model_legacy := None;
     kb_find := fun _ => [];
     openai_v1 := fun _ _ _ _ => Raise unreachable;
     openai_v0 := fun _ _ _ _ => Raise unreachable;
     json_loads := Json.loads;
     get_answer := fun _ => Raise unreachable;
     get_answer_stream := fun _ => [] |}.

Definition titled (t : string) : Hit :=
  {| title := Some t; category := "Admissions"; url := "" |}.

(** [t] between double quotes. *)
Definition quoted (t : string) : string :=
  String dquote t ++ String dquote "".

(** A JSON object with a list inside: the key k bound to the list of the
    one string x. *)
Definition object_text : string :=
  "{" ++ quoted "k" ++ ": [" ++ quoted "x" ++ "]}".

(** A reply that wraps its list in prose: the strings a and b and the
    number 1 between brackets. *)
Definition chatty_reply : string :=
  "Sure! [" ++ quoted "a" ++ ", 1, " ++ quoted "b" ++ "] Hope it helps".

End Examples.

(** An alias of the map table answers a lower-cased message when its key
    is a substring of the message or the lower-cased name of its building
    is. *)
Definition alias_answers (message : string) (kb : string * Building.t)
  : Prop :=
  occurs_in (fst kb) message
  \/ occurs_in (lower (Building.name (snd kb))) message.

(** The last [Some] of a list of options. *)
Fixpoint last_some {A : Type} (l : list (option A)) : option A :=
  match l with
  | [] => None
  | x :: r =>
      match last_some r with
      | Some y => Some y
      | None => x
      end
  end.

(** The building of the last alias of the routing table, in declaration
    order, whose key is a substring of [text]. *)
Definition last_alias (text : string) : option Place.t :=
  last_some
    (map (fun kb : string * Place.t =>
            if contains (fst kb) text then Some (snd kb) else None)
       routing_buildings).

(** The origin and destination texts a preposition pair isolates in a
    lower-cased message: both prepositions occur, the message is cut at the
    first one, the piece after that cut is cut at the second one. *)
Definition isolated (message : string) (pattern : string * string)
  : option (string * string) :=
  if contains (fst pattern) message && contains (snd pattern) message then
    match split message (fst pattern) with
    | _ :: second :: _ =>
        match split second (snd pattern) with
        | o :: d :: _ => Some (strip o, strip d)
        | _ => None
        end
    | _ => None
    end
  else None.

Definition origin_by (message : string) (pattern : string * string)
  : option Place.t :=
  match isolated message pattern with
  | Some (o, _) => last_alias o
  | None => None
  end.

Definition destination_by (message : string) (pattern : string * string)
  : option Place.t :=
  match isolated message pattern with
  | Some (_, d) => last_alias d
  | None => None
  end.

(** Origin and destination as the last preposition pair whose split
    succeeds would determine them on its own. *)
Definition by_last_successful_pair (message : string)
  : option Place.t * option Place.t :=
  match last_some (map (isolated message) routing_patterns) with
  | Some (o, d) => (last_alias o, last_alias d)
  | None => (None, None)
  end.

(** The ticket made of the defaults and the raw message. *)
Definition default_ticket (message : string) : Ticket.t :=
  {| Ticket.subject := "Support Request";
     Ticket.category := "Other";
     Ticket.priority := "Medium";
     Ticket.description := message |}.

(** [frag] is the bracketed span of [s]: it runs from the first opening
    bracket of [s] to the last closing bracket after it. *)
Definition bracketed_span (s frag : string) : Prop :=
  exists pre mid post,
    s = pre ++ "[" ++ mid ++ "]" ++ post
    /\ frag = "[" ++ mid ++ "]"
    /\ ~ occurs_in "[" pre
    /\ ~ occurs_in "]" post.

(** The hits [build_llm_style_followups] works with: those of the question
    or, when there are none and the answer is not empty, those of the
    answer. *)
Definition hits_of (w : World) (q a : string) : list Hit :=
  if negb (nonempty (_mongo_text_search w q 8)) && truthy a
  then _mongo_text_search w a 8
  else _mongo_text_search w q 8.

(** The labels of a chip list, and what it means for labels to be distinct
    up to case. *)
Definition labels_of (chips : list Chip) : list string := map label chips.

Definition distinct_up_to_case (labels : list string) : Prop :=
  NoDup (map lower labels).

(** The contract of the follow-up generator for a result and a bound. *)
Definition followups_contract (r : list Chip * bool * string) (k : Z)
  : Prop :=
  (Z.of_nat (List.length (chips_of r)) <= k)%Z
  /\ Forall (fun c => label c <> "") (chips_of r)
  /\ In (source_of r) [ "openai"; "fallback"; "fallback_error" ].

(** The chip of a suggestion, and the suggestions of the fallback path:
    the titles among the first six hits, else the generic list. *)
Definition faq_chip (s : string) : Chip := {| label := s; payload := Faq s |}.

Definition fallback_suggestions (hits : list Hit) (k : Z) : list string :=
  let titles := slice_upto k (filter truthy (titles_of (firstn 6 hits))) in
  if nonempty titles then titles else slice_upto k generic_suggestions.

(** [s[n:]] *)
Fixpoint drop (n : nat) (s : string) : string :=
  match n, s with
  | O, _ => s
  | S m, String _ r => drop m r
  | S _, "" => ""
  end.

(** Every character of [s] is white space. *)
Fixpoint all_space (s : string) : bool :=
  match s with
  | "" => true
  | String c r => is_space c && all_space r
  end.

(** The legacy model [llm_complete] falls back to. *)
Definition legacy_model (w : World) : string :=
  match env_followup_model_legacy w with
  | Some m => m
  | None => "gpt-3.5-turbo"
  end.

(** What the loop of [_llm_generate_followups] makes of one item: stripped,
    then without one trailing question mark. *)
Definition clean (it : string) : string :=
  let s := strip it in
  if endswith s "?" then drop_last s else s.

(** [picked] is [from] with some elements left out, the others in their
    order. *)
Inductive kept_in_order {A : Type} : list A -> list A -> Prop :=
| kept_none : kept_in_order [] []
| kept_this (x : A) (picked from : list A) :
    kept_in_order picked from -> kept_in_order (x :: picked) (x :: from)
| kept_later (x : A) (picked from : list A) :
    kept_in_order picked from -> kept_in_order picked (x :: from).

(** The language model is asked for suggestions: the feature is switched on
    and an API key is configured. *)
Definition llm_enabled (w : World) : bool :=
  use_llm_followups (settings w) && truthy (openai_api_key (settings w)).

(** [label] occurs in [text] between [pre] and [rest], and nowhere
    earlier. *)
Definition first_at (label pre rest text : string) : Prop :=
  text = pre ++ label ++ rest
  /\ forall pre' rest',
      text = pre' ++ label ++ rest' ->
      (String.length pre <= String.length pre')%nat.

(** A value the model can put on the line of a labelled field and get back
    unchanged: not empty, no white space around it, on one line and
    without a colon. *)
Definition field_value (v : string) : Prop :=
  v <> "" /\ strip v = v /\ ~ occurs_in nl v /\ ~ occurs_in ":" v.

(** The answer in the format the prompt asks for. *)
Definition formatted_answer (s c p d : string) : string :=
  "SUBJECT: " ++ s ++ nl ++ "CATEGORY: " ++ c ++ nl
  ++ "PRIORITY: " ++ p ++ nl ++ "DESCRIPTION: " ++ d.

(** * Properties *)

(** ** Substrings *)

Section Substrings.

Lemma prefix_append (n post : string) : String.prefix n (n ++ post) = true.
Proof.
  induction n as [|c n IH]; simpl.
  - now destruct post.
  - destruct (ascii_dec c c) as [_|ne]; [exact IH | now elim ne].
Qed.

Lemma prefix_split (n h : string) :
  String.prefix n h = true -> exists post, h = n ++ post.
Proof.
  revert h; induction n as [|c n IH]; intros h Hp.
  - now exists h.
  - destruct h as [|d h]; simpl in Hp; [discriminate|].
    destruct (ascii_dec c d) as [->|]; [|discriminate].
    destruct (IH _ Hp) as [post ->]. now exists post.
Qed.

Lemma contains_occurs (n h : string) :
  contains n h = true <-> occurs_in n h.
Proof.
  split.
  - induction h as [|c h IH]; cbn [contains]; intro H.
    + rewrite orb_false_r in H. destruct (prefix_split _ _ H) as [post E].
      now exists "", post.
    + apply orb_true_iff in H as [H|H].
      * destruct (prefix_split _ _ H) as [post E]. now exists "", post.
      * destruct (IH H) as (pre & post & ->). now exists (String c pre), post.
  - intros (pre & post & ->).
    induction pre as [|c pre IH].
    + change ("" ++ n ++ post) with (n ++ post).
      destruct (n ++ post) eqn:E; cbn [contains];
        rewrite <- E, prefix_append; reflexivity.
    + change (String c pre ++ n ++ post) with (String c (pre ++ n ++ post)).
      cbn [contains]. rewrite IH. apply orb_true_r.
Qed.

Lemma contains_absent (n h : string) :
  contains n h = false <-> ~ occurs_in n h.
Proof.
  rewrite <- contains_occurs. now destruct (contains n h).
Qed.

Lemma lower_append (a b : string) : lower (a ++ b) = lower a ++ lower b.
Proof. induction a as [|c a IH]; simpl; [|rewrite IH]; reflexivity. Qed.

Lemma occurs_lower (n h : string) :
  occurs_in n h -> occurs_in (lower n) (lower h).
Proof.
  intros (pre & post & ->). exists (lower pre), (lower post).
  now rewrite !lower_append.
Qed.

Lemma any_in_occurs (keys : list string) (text : string) :
  any_in keys text = true <-> exists k, In k keys /\ occurs_in k text.
Proof.
  unfold any_in. rewrite existsb_exists.
  split; intros (k & Hin & H); exists k; split; trivial;
    now apply contains_occurs.
Qed.

End Substrings.

(** ** The model of [split], [strip] and the patterns on concrete texts *)

Example split_between :
  split "directions from library to uc" "from"
  = [ "directions "; " library to uc" ].
Proof. reflexivity. Qed.

Example split_adjacent : split "a--b----c" "--" = [ "a"; "b"; ""; "c" ].
Proof. reflexivity. Qed.

Example split_absent : split "library" "from" = [ "library" ].
Proof. reflexivity. Qed.

Example strip_both : strip "  uc between x and y " = "uc between x and y".
Proof. reflexivity. Qed.

Example lower_mixed : lower "Where is the UC?" = "where is the uc?".
Proof. reflexivity. Qed.

Example field_on_its_line :
  search_field "SUBJECT:" false
    ("SUBJECT: Wifi down" ++ nl ++ "CATEGORY: Technical Support")
  = Some "Wifi down".
Proof. reflexivity. Qed.

Example field_to_the_end :
  search_field "DESCRIPTION:" true
    ("DESCRIPTION: no signal" ++ nl ++ "since Monday")
  = Some ("no signal" ++ nl ++ "since Monday").
Proof. reflexivity. Qed.

Example field_gives_back_space :
  search_field "SUBJECT:" false ("SUBJECT: " ++ nl) = Some " ".
Proof. reflexivity. Qed.

Example loads_list :
  Json.loads ("[" ++ Examples.quoted "a" ++ ", 1, null]")
  = Ok (JArr [ JStr "a"; JNum "1"; JNull ]).
Proof. reflexivity. Qed.

Example loads_extra_data :
  Json.loads "[] []" = Raise (Exception "JSONDecodeError: Extra data").
Proof. reflexivity. Qed.

Section SplitJoin.

Variable sep : string.

Lemma join_cons_char (c : ascii) (h : string) (t : list string) :
  join sep (String c h :: t) = String c (join sep (h :: t)).
Proof. destruct t; reflexivity. Qed.

Lemma drop_append (a b : string) : drop (String.length a) (a ++ b) = b.
Proof. induction a as [|c a IH]; [reflexivity | exact IH]. Qed.

(** Joining the pieces with the separator gives the text back. *)
Lemma split_go_join (s : string) (skip : nat) :
  sep <> "" -> (skip <= String.length s)%nat ->
  join sep (fst (split_go sep s skip) :: snd (split_go sep s skip))
  = drop skip s.
Proof.
  intro Hsep. revert skip; induction s as [|c r IH]; intros skip Hskip.
  - destruct skip; [reflexivity | cbn in Hskip; lia].
  - destruct skip as [|n].
    + cbn [split_go drop].
      destruct (String.prefix sep (String c r)) eqn:P.
      * destruct (prefix_split _ _ P) as [post E].
        destruct sep as [|x sep']; [now elim Hsep|].
        cbn in E. injection E as -> ->.
        assert (L : (String.length (String x sep') - 1 <= String.length (sep' ++ post))%nat).
        { cbn. rewrite Nat.sub_0_r. clear. induction sep'; cbn; lia. }
        specialize (IH _ L).
        destruct (split_go (String x sep') (sep' ++ post) _) as [h t].
        cbn [fst snd] in IH |- *.
        change (join (String x sep') ("" :: h :: t))
          with (String x sep' ++ join (String x sep') (h :: t)).
        rewrite IH. cbn [String.length Nat.sub]. rewrite Nat.sub_0_r.
        now rewrite drop_append.
      * specialize (IH 0%nat (Nat.le_0_l _)).
        destruct (split_go sep r 0) as [h t]. cbn [fst snd] in IH |- *.
        rewrite join_cons_char. now rewrite IH.
    + cbn [split_go drop]. apply IH. cbn in Hskip. lia.
Qed.

Lemma split_join (s : string) : sep <> "" -> join sep (split s sep) = s.
Proof.
  intro Hsep. unfold split.
  pose proof (split_go_join s 0 Hsep (Nat.le_0_l _)) as H.
  now destruct (split_go sep s 0).
Qed.

(** There is a second piece exactly when the separator occurs, so the test
    on [len(parts)] in the routing handler never fails after the test
    with [in]. *)
Lemma split_second_piece (s : string) :
  sep <> "" -> (1 <? List.length (split s sep))%nat = contains sep s.
Proof.
  intro Hsep. unfold split.
  induction s as [|c r IH].
  - destruct sep; [now elim Hsep | reflexivity].
  - cbn [split_go contains].
    destruct (String.prefix sep (String c r)) eqn:P.
    + now destruct (split_go sep r (String.length sep - 1)).
    + destruct (split_go sep r 0) as [h t]. exact IH.
Qed.

End SplitJoin.

(** ** The escalation signal *)

Lemma escalate_of_build (w : World) (q a : string) (k : Z) :
  escalate_of (build_llm_style_followups w q a k)
  = _should_offer_live_chat q a (List.length (hits_of w q a)).
Proof.
  unfold build_llm_style_followups, escalate_of.
  destruct (use_llm_followups (settings w) && truthy (openai_api_key (settings w)));
    [destruct (_llm_generate_followups _ _ _ _ _) as [s|e];
       [destruct (nonempty s)|]|];
    reflexivity.
Qed.



(** ** The question-answering handlers *)

Lemma append_assoc (a b c : string) : (a ++ b) ++ c = a ++ b ++ c.
Proof. induction a as [|x a IH]; simpl; [|rewrite IH]; reflexivity. Qed.

Lemma append_empty (a : string) : a ++ "" = a.
Proof. induction a as [|x a IH]; simpl; [|rewrite IH]; reflexivity. Qed.

Lemma concat_cons (chunk : string) (rest : list string) :
  String.concat "" (chunk :: rest) = chunk ++ String.concat "" rest.
Proof.
  destruct rest; simpl; [now rewrite append_empty | reflexivity].
Qed.

(** The loop yields one [Chunk] per chunk, in order, and accumulates their
    concatenation. *)
Lemma chunk_loop_events (chunks : list string) (acc : string) :
  chunk_loop chunks acc
  = (map Chunk chunks, acc ++ String.concat "" chunks).
Proof.
  revert acc; induction chunks as [|chunk rest IH]; intro acc.
  - simpl. now rewrite append_empty.
  - cbn [chunk_loop map]. rewrite IH, concat_cons, append_assoc. reflexivity.
Qed.

Lemma followup_data_unfold (w : World) (q a : string) :
  followup_data w q a
  = let b := build_llm_style_followups w q a 4 in
    FollowupsEvent (escalate_of b)
      (if escalate_of b then [admin_chip] else chips_of b)
      (if debug_followups (settings w) then Some (source_of b) else None).
Proof.
  unfold followup_data, escalate_of, chips_of, source_of.
  destruct (build_llm_style_followups w q a 4) as [[chips slc] src].
  reflexivity.
Qed.

Lemma event_generator_events (w : World) (q : string) :
  event_generator w q
  = (map Chunk (get_answer_stream w q)
     ++ [ followup_data w q (String.concat "" (get_answer_stream w q));
          Done ])%list.
Proof. unfold event_generator. now rewrite chunk_loop_events. Qed.





(** ** Map lookup: the first alias wins *)

Section MapLookup.

Variable message : string.

(** The test of the loop is [alias_answers]. *)
Lemma answers_iff (key : string) (b : Building.t) :
  contains key message || contains (lower (Building.name b)) message = true
  <-> alias_answers message (key, b).
Proof.
  unfold alias_answers.
  now rewrite orb_true_iff, !contains_occurs.
Qed.

Lemma answers_not (key : string) (b : Building.t) :
  ~ alias_answers message (key, b) ->
  contains key message || contains (lower (Building.name b)) message = false.
Proof.
  intro H. apply not_true_is_false. intro E. now apply H, answers_iff.
Qed.

Lemma map_loop_none (items : list (string * Building.t)) :
  (forall kb, In kb items -> ~ alias_answers message kb) ->
  map_loop message items = None.
Proof.
  induction items as [|[key b] rest IH]; intro H; [reflexivity|].
  cbn [map_loop].
  rewrite (answers_not key b (H _ (or_introl eq_refl))).
  apply IH. intros kb Hin. apply H. now right.
Qed.

Lemma map_loop_first (pre post : list (string * Building.t))
  (key : string) (b : Building.t) :
  (forall kb, In kb pre -> ~ alias_answers message kb) ->
  alias_answers message (key, b) ->
  map_loop message (pre ++ (key, b) :: post)%list = Some (located b).
Proof.
  induction pre as [|[key' b'] pre IH]; intros Hpre Hkb.
  - cbn [app map_loop].
    now rewrite (proj2 (answers_iff key b) Hkb).
  - cbn [app map_loop].
    rewrite (answers_not key' b' (Hpre _ (or_introl eq_refl))).
    apply IH; [|exact Hkb]. intros kb Hin. apply Hpre. now right.
Qed.

End MapLookup.

(** C8.  [analyze_map_request] returns the record of the first alias, in
    the declaration order of [buildings], whose key occurs in the
    lower-cased message or whose lower-cased building name does, with a
    description built around that building's name; when no alias answers
    it returns no location and the description of the full map.  It never
    raises.  "where is the uc" finds the University Center and
    "show me campus" finds nothing. *)
Theorem map_lookup_first_alias :
  (forall (msg : string) (pre post : list (string * Building.t))
      (key : string) (b : Building.t),
      buildings = (pre ++ (key, b) :: post)%list ->
      alias_answers (lower msg) (key, b) ->
      (forall kb, In kb pre -> ~ alias_answers (lower msg) kb) ->
      analyze_map_request msg
      = Ok {| MapReply.location := Some b;
              MapReply.description :=
                pin ++ " Here's the location of the **" ++ Building.name b
                ++ "**. " ++ Building.description b ++ "." |})
  /\ (forall msg : string,
         (forall kb, In kb buildings -> ~ alias_answers (lower msg) kb) ->
         analyze_map_request msg
         = Ok {| MapReply.location := None;
                 MapReply.description :=
                   "Here's the TAMUCC campus map showing all major buildings."
              |})
  /\ (forall msg : string, exists r, analyze_map_request msg = Ok r)
  /\ analyze_map_request "where is the uc" = Ok (located university_center)
  /\ Building.name university_center = "University Center (UC)"
  /\ analyze_map_request "show me campus" = Ok full_map.
Proof.
  split; [|split; [|split; [|repeat split]]].
  - intros msg pre post key b E Hkb Hpre.
    unfold analyze_map_request, try_except.
    now rewrite E, (map_loop_first _ _ _ _ _ Hpre Hkb).
  - intros msg H. unfold analyze_map_request, try_except.
    now rewrite (map_loop_none _ _ H).
  - intro msg. unfold analyze_map_request, try_except.
    destruct (map_loop (lower msg) buildings); eauto.
Qed.

Lemma map_lookup_first_alias_witness :
  alias_answers (lower "Where is the UC") ("uc", university_center)
  /\ analyze_map_request "Where is the UC" = Ok (located university_center).
Proof.
  assert (Huc : alias_answers (lower "Where is the UC")
                  ("uc", university_center))
    by (left; exists "where is the ", ""; reflexivity).
  split; [exact Huc|].
  apply (proj1 map_lookup_first_alias "Where is the UC"
           [ ("library", mary_and_jeff_bell_library);
             ("university center", university_center) ]
           (skipn 3 buildings) "uc" university_center);
    [reflexivity | exact Huc |].
  intros kb [<-|[<-|[]]] H; apply answers_iff in H; discriminate.
Defined.

(** ** Routing lookup: the last alias wins, and every pair is tried *)

Section AliasLoop.

Variables origin_text dest_text : string.

Lemma key_equal_occurs (key text : string) :
  contains key text || String.eqb key text = contains key text.
Proof.
  destruct (String.eqb key text) eqn:E; [|apply orb_false_r].
  apply String.eqb_eq in E as ->. rewrite orb_true_r. symmetry.
  apply contains_occurs. exists "", "". now rewrite append_empty.
Qed.

Lemma alias_loop_app (pre post : list (string * Place.t))
  (o d : option Place.t) :
  alias_loop (pre ++ post) origin_text dest_text o d
  = alias_loop post origin_text dest_text
      (fst (alias_loop pre origin_text dest_text o d))
      (snd (alias_loop pre origin_text dest_text o d)).
Proof.
  revert o d; induction pre as [|[key b] pre IH]; intros o d.
  - reflexivity.
  - cbn [app alias_loop]. apply IH.
Qed.

Lemma alias_loop_origin_kept (items : list (string * Place.t))
  (o d : option Place.t) :
  (forall kb, In kb items -> ~ occurs_in (fst kb) origin_text) ->
  fst (alias_loop items origin_text dest_text o d) = o.
Proof.
  revert o d; induction items as [|[key b] rest IH]; intros o d H.
  - reflexivity.
  - cbn [alias_loop]. rewrite key_equal_occurs.
    assert (E : contains key origin_text = false)
      by (apply contains_absent, (H (key, b)); now left).
    rewrite E, IH; [reflexivity|]. intros kb Hin. apply H. now right.
Qed.

Lemma alias_loop_destination_kept (items : list (string * Place.t))
  (o d : option Place.t) :
  (forall kb, In kb items -> ~ occurs_in (fst kb) dest_text) ->
  snd (alias_loop items origin_text dest_text o d) = d.
Proof.
  revert o d; induction items as [|[key b] rest IH]; intros o d H.
  - reflexivity.
  - cbn [alias_loop]. rewrite (key_equal_occurs key dest_text).
    assert (E : contains key dest_text = false)
      by (apply contains_absent, (H (key, b)); now left).
    rewrite E, IH; [reflexivity|]. intros kb Hin. apply H. now right.
Qed.

Lemma alias_loop_origin_last (pre post : list (string * Place.t))
  (key : string) (b : Place.t) (o d : option Place.t) :
  occurs_in key origin_text ->
  (forall kb, In kb post -> ~ occurs_in (fst kb) origin_text) ->
  fst (alias_loop (pre ++ (key, b) :: post) origin_text dest_text o d)
  = Some b.
Proof.
  intros Hk Hpost. rewrite alias_loop_app. cbn [alias_loop].
  rewrite key_equal_occurs, (proj2 (contains_occurs _ _) Hk).
  now apply alias_loop_origin_kept.
Qed.

Lemma alias_loop_destination_last (pre post : list (string * Place.t))
  (key : string) (b : Place.t) (o d : option Place.t) :
  occurs_in key dest_text ->
  (forall kb, In kb post -> ~ occurs_in (fst kb) dest_text) ->
  snd (alias_loop (pre ++ (key, b) :: post) origin_text dest_text o d)
  = Some b.
Proof.
  intros Hk Hpost. rewrite alias_loop_app. cbn [alias_loop].
  rewrite (key_equal_occurs key dest_text),
    (proj2 (contains_occurs _ _) Hk).
  now apply alias_loop_destination_kept.
Qed.

(** The loop in closed form: each side is overwritten by the last alias
    that matches its text and kept when none does. *)
Lemma alias_loop_last_alias (o d : option Place.t) :
  alias_loop routing_buildings origin_text dest_text o d
  = (match last_alias origin_text with Some b => Some b | None => o end,
     match last_alias dest_text with Some b => Some b | None => d end).
Proof.
  unfold last_alias. revert o d.
  induction routing_buildings as [|[key b] rest IH]; intros o d.
  - reflexivity.
  - cbn [alias_loop map last_some fst snd].
    rewrite IH, !key_equal_occurs.
    destruct (last_some _), (last_some _),
      (contains key origin_text), (contains key dest_text); reflexivity.
Qed.

End AliasLoop.

(** C9.  The alias loop of the routing handler scans the whole table and
    lets every matching alias overwrite the previous one: the origin (and
    likewise the destination) is the building of the last alias in
    declaration order whose key occurs in its text, and stays as it was
    when no key occurs.  An origin text in which "dining" occurs and no
    alias declared after "islander dining" does gives Islander Dining,
    also when "uc" occurs in it; for the text "uc dining" the map lookup
    gives the University Center instead. *)
Theorem routing_last_alias_wins :
  (forall (origin_text dest_text : string)
      (pre post : list (string * Place.t)) (key : string) (b : Place.t)
      (o d : option Place.t),
      routing_buildings = (pre ++ (key, b) :: post)%list ->
      (forall kb, In kb post -> ~ occurs_in (fst kb) origin_text) ->
      occurs_in key origin_text ->
      fst (alias_loop routing_buildings origin_text dest_text o d) = Some b)
  /\ (forall (origin_text dest_text : string)
        (pre post : list (string * Place.t)) (key : string) (b : Place.t)
        (o d : option Place.t),
         routing_buildings = (pre ++ (key, b) :: post)%list ->
         (forall kb, In kb post -> ~ occurs_in (fst kb) dest_text) ->
         occurs_in key dest_text ->
         snd (alias_loop routing_buildings origin_text dest_text o d)
         = Some b)
  /\ (forall (origin_text dest_text : string) (o d : option Place.t),
         (forall kb, In kb routing_buildings ->
                     ~ occurs_in (fst kb) origin_text) ->
         fst (alias_loop routing_buildings origin_text dest_text o d) = o)
  /\ (forall (origin_text dest_text : string) (o d : option Place.t),
         (forall kb, In kb routing_buildings ->
                     ~ occurs_in (fst kb) dest_text) ->
         snd (alias_loop routing_buildings origin_text dest_text o d) = d)
  /\ (forall (origin_text dest_text : string) (o d : option Place.t),
         occurs_in "dining" origin_text ->
         (forall kb, In kb (skipn 5 routing_buildings) ->
                     ~ occurs_in (fst kb) origin_text) ->
         fst (alias_loop routing_buildings origin_text dest_text o d)
         = Some (place_of islander_dining))
  /\ alias_loop routing_buildings "uc dining" "library" None None
     = (Some (place_of islander_dining),
        Some (place_of mary_and_jeff_bell_library))
  /\ analyze_routing_request "from uc dining to library"
     = Ok {| RouteReply.origin := Some (place_of islander_dining);
             RouteReply.destination :=
               Some (place_of mary_and_jeff_bell_library);
             RouteReply.found := true;
             RouteReply.message := None |}
  /\ analyze_map_request "uc dining" = Ok (located university_center).
Proof.
  split; [|split; [|split; [|split; [|split; [|repeat split]]]]].
  - intros ot dt pre post key b o d -> Hpost Hk.
    now apply alias_loop_origin_last.
  - intros ot dt pre post key b o d -> Hpost Hk.
    now apply alias_loop_destination_last.
  - intros ot dt o d H. now apply alias_loop_origin_kept.
  - intros ot dt o d H. now apply alias_loop_destination_kept.
  - intros ot dt o d Hdining Hlater.
    destruct (contains "islander dining" ot) eqn:C.
    + apply contains_occurs in C.
      change routing_buildings
        with (firstn 4 routing_buildings
              ++ ("islander dining", place_of islander_dining)
                 :: skipn 5 routing_buildings)%list.
      now apply alias_loop_origin_last.
    + apply contains_absent in C.
      change routing_buildings
        with (firstn 3 routing_buildings
              ++ ("dining", place_of islander_dining)
                 :: skipn 4 routing_buildings)%list.
      apply alias_loop_origin_last; [exact Hdining|].
      intros kb [<-|Hin]; [exact C | now apply Hlater].
Qed.

Lemma routing_last_alias_wins_witness :
  occurs_in "dining" "uc dining"
  /\ fst (alias_loop routing_buildings "uc dining" "library" None None)
     = Some (place_of islander_dining).
Proof.
  assert (H : occurs_in "dining" "uc dining")
    by (exists "uc ", ""; reflexivity).
  split; [exact H|].
  apply (proj1 routing_last_alias_wins "uc dining" "library"
           (firstn 3 routing_buildings) (skipn 4 routing_buildings)
           "dining" (place_of islander_dining) None None);
    [reflexivity | | exact H].
  intros kb Hin. apply contains_absent.
  repeat (destruct Hin as [<-|Hin]; [reflexivity|]). destruct Hin.
Defined.

Section PatternLoop.

Variable message : string.

Lemma pattern_step_isolated (pattern : string * string)
  (o d : option Place.t) :
  pattern_step message pattern o d
  = match isolated message pattern with
    | Some (origin_text, dest_text) =>
        alias_loop routing_buildings origin_text dest_text o d
    | None => (o, d)
    end.
Proof.
  unfold pattern_step, isolated.
  destruct (contains (fst pattern) message && contains (snd pattern) message);
    [|reflexivity].
  destruct (split message (fst pattern)) as [|p0 [|p1 parts]];
    try reflexivity.
  cbn [List.length Nat.ltb Nat.leb nth].
  destruct (split p1 (snd pattern)) as [|s0 [|s1 rest]]; reflexivity.
Qed.

Lemma pattern_step_resolved (pattern : string * string)
  (o d : option Place.t) :
  pattern_step message pattern o d
  = (match origin_by message pattern with Some b => Some b | None => o end,
     match destination_by message pattern with
     | Some b => Some b
     | None => d
     end).
Proof.
  rewrite pattern_step_isolated. unfold origin_by, destination_by.
  destruct (isolated message pattern) as [[ot dt]|]; [|reflexivity].
  apply alias_loop_last_alias.
Qed.

Lemma pattern_loop_resolved (patterns : list (string * string))
  (o d : option Place.t) :
  pattern_loop message patterns o d
  = (match last_some (map (origin_by message) patterns) with
     | Some b => Some b
     | None => o
     end,
     match last_some (map (destination_by message) patterns) with
     | Some b => Some b
     | None => d
     end).
Proof.
  revert o d; induction patterns as [|pattern rest IH]; intros o d.
  - reflexivity.
  - cbn [pattern_loop map last_some].
    rewrite pattern_step_resolved, IH.
    destruct (last_some (map (origin_by message) rest)),
      (last_some (map (destination_by message) rest)),
      (origin_by message pattern), (destination_by message pattern);
      reflexivity.
Qed.

End PatternLoop.

(** C3, amended.  Every preposition pair whose two prepositions occur in
    the lower-cased message is tried, in order and without stopping at the
    first success, and origin and destination are carried from one pair to
    the next: the final origin is the one resolved by the last pair that
    resolves an origin, the final destination the one resolved by the last
    pair that resolves a destination, each on its own.  The response
    reports them when both exist and reports nothing found otherwise. *)
Theorem routing_pairs_carry_over (msg : string) :
  let origin :=
    last_some (map (origin_by (lower msg)) routing_patterns) in
  let destination :=
    last_some (map (destination_by (lower msg)) routing_patterns) in
  pattern_loop (lower msg) routing_patterns None None
  = (origin, destination)
  /\ exists r,
      analyze_routing_request msg = Ok r
      /\ match origin, destination with
         | Some o, Some d =>
             RouteReply.origin r = Some o
             /\ RouteReply.destination r = Some d
             /\ RouteReply.found r = true
         | _, _ =>
             RouteReply.origin r = None
             /\ RouteReply.destination r = None
             /\ RouteReply.found r = false
         end.
Proof.
  intros origin destination.
  assert (E : pattern_loop (lower msg) routing_patterns None None
              = (origin, destination)).
  { rewrite pattern_loop_resolved. subst origin destination.
    destruct (last_some _), (last_some _); reflexivity. }
  split; [exact E|].
  unfold analyze_routing_request, try_except. rewrite E.
  destruct origin as [o|], destination as [d|]; eexists;
    (split; [reflexivity|]); cbn; auto.
Qed.

(** C3 as worded fails: in this message the last pair whose split succeeds
    is ("between", "and"); it isolates "x" and "y", which name no
    building, and the response still carries the library and the
    University Center found by ("from", "to"). *)
Lemma routing_last_pair_counterexample :
  last_some
    (map (isolated "from library to uc between x and y") routing_patterns)
  = Some ("x", "y")
  /\ by_last_successful_pair "from library to uc between x and y"
     = (None, None)
  /\ pattern_loop "from library to uc between x and y" routing_patterns
       None None
     = (Some (place_of mary_and_jeff_bell_library),
        Some (place_of university_center))
  /\ pattern_loop "from library to uc between x and y" routing_patterns
       None None
     <> by_last_successful_pair "from library to uc between x and y"
  /\ analyze_routing_request "from library to uc between x and y"
     = Ok {| RouteReply.origin := Some (place_of mary_and_jeff_bell_library);
             RouteReply.destination := Some (place_of university_center);
             RouteReply.found := true;
             RouteReply.message := None |}.
Proof.
  repeat split; try reflexivity.
  vm_compute. discriminate.
Qed.

(** ** Ticket extraction *)

Lemma after_append (label text rest : string) :
  after label text = Some rest -> text = label ++ rest.
Proof.
  revert text; induction label as [|c label IH]; intros text H.
  - destruct text; injection H as <-; reflexivity.
  - destruct text as [|d text]; [discriminate|]. cbn [after] in H.
    destruct (Ascii.eqb_spec c d) as [->|]; [|discriminate].
    now rewrite (IH _ H).
Qed.

(** A label that does not occur is not found by the search. *)
Lemma search_field_absent (label : string) (dotall : bool) (text : string) :
  ~ occurs_in label text -> search_field label dotall text = None.
Proof.
  induction text as [|c text IH]; intro H.
  - cbn [search_field]. destruct (after label "") as [rest|] eqn:E.
    + elim H. exists "", rest. exact (after_append _ _ _ E).
    + reflexivity.
  - cbn [search_field]. destruct (after label (String c text)) as [rest|] eqn:E.
    + elim H. exists "", rest. exact (after_append _ _ _ E).
    + apply IH. intros (pre & post & ->). apply H.
      now exists (String c pre), post.
Qed.

(** C5.  [analyze_ticket_request] returns a ticket in every world and for
    every message: it never raises.  When the answer provider raises the
    ticket is the defaults with the message as description; so it is when
    none of the four labelled patterns matches the answer, which is the
    case in particular when none of the labels occurs in it. *)
Theorem ticket_defaults :
  (forall (w : World) (message : string),
      exists t, analyze_ticket_request w message = Ok t)
  /\ (forall (w : World) (message : string) (e : exn),
         get_answer w (analysis_prompt message) = Raise e ->
         analyze_ticket_request w message
         = Ok {| Ticket.subject := "Support Request";
                 Ticket.category := "Other";
                 Ticket.priority := "Medium";
                 Ticket.description := message |})
  /\ (forall (w : World) (message answer : string),
         get_answer w (analysis_prompt message) = Ok (Some answer) ->
         search_field "SUBJECT:" false answer = None ->
         search_field "CATEGORY:" false answer = None ->
         search_field "PRIORITY:" false answer = None ->
         search_field "DESCRIPTION:" true answer = None ->
         analyze_ticket_request w message
         = Ok {| Ticket.subject := "Support Request";
                 Ticket.category := "Other";
                 Ticket.priority := "Medium";
                 Ticket.description := message |})
  /\ (forall (label : string) (dotall : bool) (answer : string),
         ~ occurs_in label answer ->
         search_field label dotall answer = None).
Proof.
  split; [|split; [|split]].
  - intros w message. unfold analyze_ticket_request, try_except, bind.
    destruct (get_answer w (analysis_prompt message)) as [[answer|]|e];
      eauto.
  - intros w message e E. unfold analyze_ticket_request. now rewrite E.
  - intros w message answer E Hs Hc Hp Hd.
    unfold analyze_ticket_request. rewrite E. cbn [bind].
    rewrite Hs, Hc, Hp, Hd. reflexivity.
  - exact search_field_absent.
Qed.

Lemma ticket_defaults_witness :
  get_answer (Examples.offline [] [ "Sorry, I cannot help with that." ])
    (analysis_prompt "my wifi is broken")
  = Ok (Some "Sorry, I cannot help with that.")
  /\ analyze_ticket_request
       (Examples.offline [] [ "Sorry, I cannot help with that." ])
       "my wifi is broken"
     = Ok (default_ticket "my wifi is broken")
  /\ analyze_ticket_request Examples.provider_down "my wifi is broken"
     = Ok (default_ticket "my wifi is broken").
Proof.
  split; [reflexivity|]. split.
  - apply (proj1 (proj2 (proj2 ticket_defaults))
             (Examples.offline [] [ "Sorry, I cannot help with that." ])
             "my wifi is broken" "Sorry, I cannot help with that.");
      reflexivity.
  - apply (proj1 (proj2 ticket_defaults) Examples.provider_down
             "my wifi is broken" Examples.unreachable).
    reflexivity.
Defined.

(** ** Defensive parsing of the model's reply *)

Section BracketedSpan.

Lemma occurs_char_head (c : ascii) (r : string) :
  occurs_in (String c "") (String c r).
Proof. now exists "", r. Qed.

Lemma occurs_char_tail (x c : ascii) (r : string) :
  occurs_in (String x "") r -> occurs_in (String x "") (String c r).
Proof. intros (pre & post & ->). now exists (String c pre), post. Qed.

Lemma occurs_char_inv (x c : ascii) (r : string) :
  occurs_in (String x "") (String c r) ->
  x = c \/ occurs_in (String x "") r.
Proof.
  intros (pre & post & E). destruct pre as [|p pre]; cbn in E.
  - injection E as -> _. now left.
  - injection E as _ ->. right. now exists pre, post.
Qed.

Lemma upto_last_none (r : string) :
  upto_last_rbracket r = None <-> ~ occurs_in "]" r.
Proof.
  induction r as [|c r IH]; cbn [upto_last_rbracket].
  - split; [|reflexivity]. intros _ (pre & post & E).
    destruct pre; discriminate.
  - destruct (upto_last_rbracket r) as [m|].
    + split; [discriminate|]. intro H. exfalso.
      assert (Hr : occurs_in "]" r).
      { destruct IH as [_ IH].
        destruct (contains "]" r) eqn:C; [now apply contains_occurs|].
        apply contains_absent in C. now specialize (IH C). }
      exact (H (occurs_char_tail _ _ _ Hr)).
    + destruct (Ascii.eqb_spec c "]") as [->|ne].
      * split; [discriminate|]. intro H. elim H. apply occurs_char_head.
      * split; [|reflexivity]. intros _ H.
        apply occurs_char_inv in H as [E|H]; [now elim ne|].
        now apply (proj1 IH).
Qed.

Lemma upto_last_found (mid post : string) :
  ~ occurs_in "]" post ->
  upto_last_rbracket (mid ++ "]" ++ post) = Some (mid ++ "]").
Proof.
  intro H. induction mid as [|c mid IH].
  - cbn. now rewrite (proj2 (upto_last_none post) H).
  - change (String c mid ++ "]" ++ post)
      with (String c (mid ++ "]" ++ post)).
    cbn [upto_last_rbracket]. now rewrite IH.
Qed.

Lemma upto_last_sound (r m : string) :
  upto_last_rbracket r = Some m ->
  exists mid post,
    r = mid ++ "]" ++ post /\ m = mid ++ "]" /\ ~ occurs_in "]" post.
Proof.
  revert m; induction r as [|c r IH]; intros m H; [discriminate|].
  cbn [upto_last_rbracket] in H.
  destruct (upto_last_rbracket r) as [m'|] eqn:E.
  - injection H as <-. destruct (IH _ eq_refl) as (mid & post & -> & -> & N).
    now exists (String c mid), post.
  - destruct (Ascii.eqb_spec c "]") as [->|]; [|discriminate].
    injection H as <-. exists "", r. repeat split.
    now apply upto_last_none.
Qed.

Lemma search_bracketed_complete (s frag : string) :
  bracketed_span s frag -> search_bracketed s = Some frag.
Proof.
  intros (pre & mid & post & -> & -> & Hpre & Hpost).
  induction pre as [|c pre IH].
  - change ("" ++ "[" ++ mid ++ "]" ++ post)
      with (String "[" (mid ++ "]" ++ post)).
    cbn [search_bracketed].
    now rewrite Ascii.eqb_refl, (upto_last_found mid post Hpost).
  - change (String c pre ++ "[" ++ mid ++ "]" ++ post)
      with (String c (pre ++ "[" ++ mid ++ "]" ++ post)).
    cbn [search_bracketed].
    destruct (Ascii.eqb_spec c "[") as [->|ne].
    + elim Hpre. apply occurs_char_head.
    + apply IH. intro H. apply Hpre. now apply occurs_char_tail.
Qed.

Lemma search_bracketed_sound (s frag : string) :
  search_bracketed s = Some frag -> bracketed_span s frag.
Proof.
  induction s as [|c s IH]; intro H; [discriminate|].
  cbn [search_bracketed] in H.
  assert (tail : search_bracketed s = Some frag -> c <> "["%char ->
                 bracketed_span (String c s) frag).
  { intros Hs ne. destruct (IH Hs) as (pre & mid & post & -> & -> & Np & Nq).
    exists (String c pre), mid, post. repeat split; trivial.
    intro O. apply occurs_char_inv in O as [E|O]; [now elim ne | now apply Np]. }
  destruct (Ascii.eqb_spec c "[") as [->|ne]; [|now apply tail].
  destruct (upto_last_rbracket s) as [m|] eqn:E.
  - injection H as <-.
    destruct (upto_last_sound _ _ E) as (mid & post & -> & -> & N).
    exists "", mid, post. repeat split; trivial.
    intros (pre & q & O). destruct pre; discriminate.
  - (* no closing bracket after this one: none after a later one either *)
    exfalso. apply upto_last_none in E.
    destruct (IH H) as (pre & mid & post & -> & _ & _ & _).
    apply E. exists (pre ++ "[" ++ mid), post.
    now rewrite !append_assoc.
Qed.

End BracketedSpan.

Lemma strings_of_filter (xs : list json) :
  map JStr (strings_of xs) = filter is_str xs.
Proof.
  induction xs as [|x xs IH]; [reflexivity|].
  destruct x; cbn [strings_of filter is_str map]; now rewrite ?IH.
Qed.

Lemma truthy_nonempty (s : string) : truthy s = true <-> s <> "".
Proof. destruct s; cbn; split; congruence. Qed.

(** C10, amended.  [_safe_json_list] returns a list of strings for every
    input and every behaviour of the decoder, raising nothing.  The empty
    input gives the empty list.  When the whole input decodes to a list,
    the result is its string elements in order, the other elements being
    dropped.  Otherwise, that is when decoding the whole input raises or
    gives a value that is not a list, the result is the string elements of
    the bracketed span (first opening bracket to last closing bracket) when
    that span decodes to a list, and the empty list when there is no such
    span or it does not decode to a list. *)
Theorem safe_json_list_cases (w : World) (s : string) :
  (s = "" -> _safe_json_list w s = [])
  /\ (forall xs,
         s <> "" -> json_loads w s = Ok (JArr xs) ->
         _safe_json_list w s = strings_of xs
         /\ map JStr (strings_of xs) = filter is_str xs)
  /\ (s <> "" -> (forall xs, json_loads w s <> Ok (JArr xs)) ->
      (forall frag xs,
          bracketed_span s frag -> json_loads w frag = Ok (JArr xs) ->
          _safe_json_list w s = strings_of xs
          /\ map JStr (strings_of xs) = filter is_str xs)
      /\ (forall frag,
             bracketed_span s frag ->
             (forall xs, json_loads w frag <> Ok (JArr xs)) ->
             _safe_json_list w s = [])
      /\ ((forall frag, ~ bracketed_span s frag) ->
          _safe_json_list w s = [])).
Proof.
  split; [|split].
  - now intros ->.
  - intros xs Hs E. split; [|apply strings_of_filter].
    unfold _safe_json_list.
    rewrite (proj2 (truthy_nonempty s) Hs), E. reflexivity.
  - intros Hs Hdirect.
    assert (E : _safe_json_list w s
                = match search_bracketed s with
                  | Some frag =>
                      match json_loads w frag with
                      | Ok (JArr xs) => strings_of xs
                      | _ => []
                      end
                  | None => []
                  end).
    { unfold _safe_json_list. rewrite (proj2 (truthy_nonempty s) Hs).
      cbn [negb].
      destruct (json_loads w s) as [[| | | |xs|]|e] eqn:D;
        try reflexivity.
      now elim (Hdirect xs). }
    split; [|split].
    + intros frag xs Hspan Hfrag. split; [|apply strings_of_filter].
      now rewrite E, (search_bracketed_complete _ _ Hspan), Hfrag.
    + intros frag Hspan Hfrag.
      rewrite E, (search_bracketed_complete _ _ Hspan).
      destruct (json_loads w frag) as [[| | | |xs|]|]; try reflexivity.
      now elim (Hfrag xs).
    + intro Hnone. rewrite E.
      destruct (search_bracketed s) as [frag|] eqn:S; [|reflexivity].
      elim (Hnone frag). now apply search_bracketed_sound.
Qed.

Lemma safe_json_list_cases_witness :
  bracketed_span Examples.chatty_reply
    ("[" ++ Examples.quoted "a" ++ ", 1, " ++ Examples.quoted "b" ++ "]")
  /\ _safe_json_list (Examples.offline [] []) Examples.chatty_reply
     = [ "a"; "b" ].
Proof.
  assert (H : bracketed_span Examples.chatty_reply
                ("[" ++ Examples.quoted "a" ++ ", 1, "
                 ++ Examples.quoted "b" ++ "]")).
  { exists "Sure! ",
      (Examples.quoted "a" ++ ", 1, " ++ Examples.quoted "b"),
      " Hope it helps".
    split; [reflexivity|]. split; [reflexivity|].
    split; apply contains_absent; reflexivity. }
  split; [exact H|].
  apply (proj1 (proj2 (proj2
            (safe_json_list_cases (Examples.offline [] [])
               Examples.chatty_reply))
            ltac:(discriminate) ltac:(intros xs; discriminate))
           _ [ JStr "a"; JNum "1"; JStr "b" ] H).
  reflexivity.
Defined.

(** C10 as worded fails on JSON that is not a list: the object of
    [Examples.object_text] decodes, is no list, and the result is still the
    list found between its brackets, not the empty list. *)
Lemma safe_json_list_object_counterexample :
  Json.loads Examples.object_text = Ok (JObj [ ("k", JArr [ JStr "x" ]) ])
  /\ _safe_json_list (Examples.offline [] []) Examples.object_text = [ "x" ]
  /\ ~ (forall (w : World) (s : string) (v : json),
           json_loads w s = Ok v -> is_list v = false ->
           _safe_json_list w s = []).
Proof.
  split; [reflexivity|]. split; [reflexivity|].
  intro H.
  specialize (H (Examples.offline [] []) Examples.object_text
                (JObj [ ("k", JArr [ JStr "x" ]) ]) eq_refl eq_refl).
  discriminate.
Qed.

(** ** The follow-up generator *)

Section Slices.

Context {A : Type}.

Lemma slice_upto_firstn (k : Z) (l : list A) :
  exists n, slice_upto k l = firstn n l.
Proof. unfold slice_upto. destruct (0 <=? k)%Z; eauto. Qed.

Lemma slice_upto_length (k : Z) (l : list A) :
  (0 <= k)%Z -> (Z.of_nat (List.length (slice_upto k l)) <= k)%Z.
Proof.
  intro H. unfold slice_upto.
  destruct (Z.leb_spec 0 k) as [_|]; [|lia].
  pose proof (firstn_le_length (Z.to_nat k) l). lia.
Qed.

Lemma Forall_firstn (P : A -> Prop) (n : nat) (l : list A) :
  Forall P l -> Forall P (firstn n l).
Proof.
  intro H. revert n; induction H as [|x l Hx _ IH]; intros [|n]; cbn;
    auto.
Qed.

Lemma Forall_slice_upto (P : A -> Prop) (k : Z) (l : list A) :
  Forall P l -> Forall P (slice_upto k l).
Proof.
  intro H. destruct (slice_upto_firstn k l) as [n ->].
  now apply Forall_firstn.
Qed.

Lemma NoDup_firstn (n : nat) (l : list A) : NoDup l -> NoDup (firstn n l).
Proof.
  intro H. revert n; induction H as [|x l Hx _ IH]; intros [|n]; cbn;
    try constructor; auto.
  intro Hin. apply Hx.
  rewrite <- (firstn_skipn n l). apply in_or_app. now left.
Qed.

Lemma firstn_map {B : Type} (f : A -> B) (n : nat) (l : list A) :
  firstn n (map f l) = map f (firstn n l).
Proof.
  revert n; induction l as [|x l IH]; intros [|n]; cbn; try reflexivity.
  now rewrite IH.
Qed.

End Slices.

Lemma distinct_slice_upto (k : Z) (l : list string) :
  distinct_up_to_case l -> distinct_up_to_case (slice_upto k l).
Proof.
  unfold distinct_up_to_case. intro H.
  destruct (slice_upto_firstn k l) as [n ->].
  rewrite <- firstn_map. now apply NoDup_firstn.
Qed.

Lemma mem_In (x : string) (l : list string) : mem x l = true <-> In x l.
Proof.
  unfold mem. rewrite existsb_exists. split.
  - intros (y & Hin & E). apply String.eqb_eq in E. now subst.
  - intro H. exists x. split; [exact H | apply String.eqb_refl].
Qed.

Section UniqLoop.

Variable k : Z.

(** [uniq] never receives an empty string. *)
Lemma uniq_loop_nonempty (items uniq seen : list string) :
  Forall (fun s => s <> "") uniq ->
  Forall (fun s => s <> "") (uniq_loop items uniq seen k).
Proof.
  revert uniq seen; induction items as [|it rest IH]; intros uniq seen H;
    [exact H|].
  cbn [uniq_loop]. cbv zeta.
  set (s := if endswith (strip it) "?" then drop_last (strip it)
            else strip it).
  destruct (truthy s && negb (mem (lower s) seen)) eqn:E.
  - assert (H' : Forall (fun s => s <> "") (uniq ++ [s])%list).
    { apply Forall_app. split; [exact H|]. constructor; [|constructor].
      apply andb_true_iff in E as [E _]. now apply truthy_nonempty. }
    destruct (Z.of_nat _ >=? k)%Z; [exact H' | now apply IH].
  - destruct (Z.of_nat _ >=? k)%Z; [exact H | now apply IH].
Qed.

(** [seen] holds the lower-cased form of everything in [uniq], so what
    enters [uniq] differs up to case from what is there. *)
Lemma uniq_loop_distinct (items uniq seen : list string) :
  distinct_up_to_case uniq ->
  (forall u, In u uniq -> In (lower u) seen) ->
  distinct_up_to_case (uniq_loop items uniq seen k).
Proof.
  unfold distinct_up_to_case.
  revert uniq seen; induction items as [|it rest IH];
    intros uniq seen Hd Hs; [exact Hd|].
  cbn [uniq_loop]. cbv zeta.
  set (s := if endswith (strip it) "?" then drop_last (strip it)
            else strip it).
  destruct (truthy s && negb (mem (lower s) seen)) eqn:E.
  - apply andb_true_iff in E as [_ E]. apply negb_true_iff in E.
    assert (Hd' : NoDup (map lower (uniq ++ [s])%list)).
    { rewrite map_app. cbn [map].
      apply NoDup_rev in Hd. rewrite <- (rev_involutive (_ ++ _)%list).
      apply NoDup_rev. rewrite rev_app_distr. cbn.
      constructor; [|exact Hd].
      rewrite <- in_rev. intro Hin.
      apply in_map_iff in Hin as (u & Eu & Hu).
      apply Hs in Hu. rewrite Eu in Hu.
      apply mem_In in Hu. congruence. }
    assert (Hs' : forall u, In u (uniq ++ [s])%list ->
                            In (lower u) (lower s :: seen)).
    { intros u Hu. apply in_app_or in Hu as [Hu|[<-|[]]];
        [right; now apply Hs | now left]. }
    destruct (Z.of_nat _ >=? k)%Z; [exact Hd' | now apply IH].
  - destruct (Z.of_nat _ >=? k)%Z; [exact Hd | now apply IH].
Qed.

End UniqLoop.

Lemma llm_suggestions (w : World) (q a : string) (hits : list Hit) (k : Z)
  (suggestions : list string) :
  _llm_generate_followups w q a hits k = Ok suggestions ->
  Forall (fun s => s <> "") suggestions
  /\ distinct_up_to_case suggestions.
Proof.
  unfold _llm_generate_followups, bind.
  destruct (llm_complete _ _ _ _ _) as [text|e]; [|discriminate].
  intro H. injection H as <-. split.
  - apply uniq_loop_nonempty. constructor.
  - apply uniq_loop_distinct; [constructor | intros u []].
Qed.

(** The two ways [build_llm_style_followups] comes to its chips. *)
Lemma build_cases (w : World) (q a : string) (k : Z) :
  (source_of (build_llm_style_followups w q a k) = "openai"
   /\ exists suggestions,
       _llm_generate_followups w q a (hits_of w q a) k = Ok suggestions
       /\ chips_of (build_llm_style_followups w q a k)
          = slice_upto k (map faq_chip suggestions))
  \/ ((source_of (build_llm_style_followups w q a k) = "fallback"
       \/ source_of (build_llm_style_followups w q a k) = "fallback_error")
      /\ chips_of (build_llm_style_followups w q a k)
         = slice_upto k
             (map faq_chip (fallback_suggestions (hits_of w q a) k))).
Proof.
  unfold build_llm_style_followups, source_of, chips_of.
  fold (hits_of w q a). unfold fallback_suggestions. cbv zeta.
  destruct (use_llm_followups (settings w)
            && truthy (openai_api_key (settings w))).
  - destruct (_llm_generate_followups w q a (hits_of w q a) k)
      as [[|s rest]|e].
    + right. cbn. split; [now left|].
      destruct (nonempty (slice_upto k _)); reflexivity.
    + left. cbn. split; [reflexivity|]. eauto.
    + right. cbn. split; [now right|].
      destruct (nonempty (slice_upto k _)); reflexivity.
  - right. cbn. split; [now left|].
    destruct (nonempty (slice_upto k _)); reflexivity.
Qed.

Lemma fallback_nonempty (hits : list Hit) (k : Z) :
  Forall (fun s => s <> "") (fallback_suggestions hits k).
Proof.
  unfold fallback_suggestions. cbv zeta.
  destruct (nonempty _); apply Forall_slice_upto.
  - apply Forall_forall. intros s Hs. apply filter_In in Hs as [_ Hs].
    now apply truthy_nonempty.
  - repeat constructor; discriminate.
Qed.

(** Dropping titles keeps the others distinct. *)
Lemma distinct_filter (keep : string -> bool) (titles : list string) :
  distinct_up_to_case titles -> distinct_up_to_case (filter keep titles).
Proof.
  unfold distinct_up_to_case.
  induction titles as [|t rest IH]; cbn; intro H; [constructor|].
  apply NoDup_cons_iff in H as [Hnew Hrest].
  destruct (keep t); cbn; [|now apply IH].
  apply NoDup_cons; [|now apply IH].
  intro Hin. apply Hnew.
  apply in_map_iff in Hin as (z & <- & Hz). apply in_map.
  now apply filter_In in Hz.
Qed.

Lemma fallback_distinct (hits : list Hit) (k : Z) :
  distinct_up_to_case (titles_of (firstn 6 hits)) ->
  distinct_up_to_case (fallback_suggestions hits k).
Proof.
  intro H. unfold fallback_suggestions. cbv zeta.
  destruct (nonempty _); apply distinct_slice_upto.
  - now apply distinct_filter.
  - unfold distinct_up_to_case. cbn.
    repeat constructor; cbn; intuition discriminate.
Qed.

Lemma labels_of_slice (k : Z) (suggestions : list string) :
  labels_of (slice_upto k (map faq_chip suggestions))
  = slice_upto k suggestions.
Proof.
  unfold labels_of, slice_upto. rewrite length_map.
  destruct (0 <=? k)%Z; rewrite firstn_map, map_map; cbn; apply map_id.
Qed.







(** * Further properties of the code *)

(** ** White space *)

Section Stripping.

Lemma lstrip_empty (s : string) : lstrip s = "" <-> all_space s = true.
Proof.
  induction s as [|c r IH]; cbn; [tauto|].
  destruct (is_space c); cbn; [exact IH|]. split; discriminate.
Qed.

Lemma rstrip_empty (s : string) : rstrip s = "" <-> all_space s = true.
Proof.
  induction s as [|c r IH]; cbn; [tauto|].
  destruct (rstrip r) eqn:E.
  - destruct (is_space c); cbn; [tauto|]. split; discriminate.
  - split; [discriminate|]. intro H. apply andb_true_iff in H as [_ H].
    now apply IH in H.
Qed.

Lemma lstrip_starts (s : string) (c : ascii) (r : string) :
  lstrip s = String c r -> is_space c = false.
Proof.
  induction s as [|d t IH]; cbn; [discriminate|].
  destruct (is_space d) eqn:E; [exact IH|].
  intro H. injection H as <- _. exact E.
Qed.

Lemma rstrip_keeps_head (c : ascii) (r : string) :
  is_space c = false -> exists r', rstrip (String c r) = String c r'.
Proof.
  intro H. cbn [rstrip]. destruct (rstrip r); rewrite ?H; eauto.
Qed.

Lemma rstrip_idempotent (s : string) : rstrip (rstrip s) = rstrip s.
Proof.
  induction s as [|c r IH]; [reflexivity|]. cbn [rstrip].
  destruct (rstrip r) as [|d r'] eqn:E.
  - destruct (is_space c) eqn:S; [reflexivity|]. cbn. now rewrite S.
  - cbn [rstrip] in IH |- *. now rewrite IH.
Qed.

Lemma strip_empty (s : string) : strip s = "" <-> all_space s = true.
Proof.
  unfold strip. split.
  - intro H. apply lstrip_empty.
    destruct (lstrip s) as [|c r] eqn:E; [reflexivity|].
    destruct (rstrip_keeps_head c r (lstrip_starts _ _ _ E)) as [r' R].
    rewrite R in H. discriminate.
  - intro H. apply lstrip_empty in H. now rewrite H.
Qed.

Lemma strip_idempotent (s : string) : strip (strip s) = strip s.
Proof.
  unfold strip. destruct (lstrip s) as [|c r] eqn:E; [reflexivity|].
  pose proof (lstrip_starts _ _ _ E) as S.
  destruct (rstrip_keeps_head c r S) as [r' R].
  rewrite R. cbn [lstrip]. rewrite S, <- R. apply rstrip_idempotent.
Qed.

End Stripping.

(** ** The language-model client *)

(** X1.  [llm_complete] answers with the text of the current client when that
    one answers, and with the text of the legacy client, asked for the
    legacy model, when only that one answers; the text comes back stripped,
    so stripping it again changes nothing.  It raises exactly when both
    clients raise. *)
Theorem llm_complete_fallback (w : World) (messages : list Message)
  (model : string) (temperature : Q) (max_tokens : Z) :
  (forall text,
      llm_complete w messages model temperature max_tokens = Ok text ->
      strip text = text
      /\ exists raw,
          text = strip raw
          /\ (openai_v1 w model messages temperature max_tokens = Ok raw
              \/ (exists e1,
                     openai_v1 w model messages temperature max_tokens
                     = Raise e1)
                 /\ openai_v0 w (legacy_model w) messages temperature
                      max_tokens = Ok raw))
  /\ (forall raw,
         openai_v1 w model messages temperature max_tokens = Ok raw ->
         llm_complete w messages model temperature max_tokens
         = Ok (strip raw))
  /\ ((exists e,
          llm_complete w messages model temperature max_tokens = Raise e)
      <-> (exists e1 e0,
              openai_v1 w model messages temperature max_tokens = Raise e1
              /\ openai_v0 w (legacy_model w) messages temperature max_tokens
                 = Raise e0)).
Proof.
  unfold llm_complete. fold (legacy_model w).
  destruct (openai_v1 w model messages temperature max_tokens)
    as [raw1|e1];
    [|destruct (openai_v0 w (legacy_model w) messages temperature max_tokens)
        as [raw0|e0]].
  - split; [|split].
    + intros text H. injection H as <-. split; [apply strip_idempotent|].
      exists raw1. split; [reflexivity | now left].
    + intros raw H. now injection H as <-.
    + split; [intros [e H]; discriminate|].
      intros (x & y & H & _). discriminate.
  - split; [|split].
    + intros text H. injection H as <-. split; [apply strip_idempotent|].
      exists raw0. split; [reflexivity | right; eauto].
    + intros raw H. discriminate.
    + split; [intros [e H]; discriminate|].
      intros (x & y & _ & H). discriminate.
  - split; [|split].
    + intros text H. discriminate.
    + intros raw H. discriminate.
    + split; eauto.
Qed.

Lemma llm_complete_fallback_witness :
  llm_complete (Examples.scripted "  [] " [] [])
    [ {| role := "user"; content := "hi" |} ] "gpt-4o-mini" 0.4%Q 180%Z
  = Ok "[]"
  /\ strip "[]" = "[]".
Proof.
  split; [reflexivity|].
  apply (proj1 (llm_complete_fallback (Examples.scripted "  [] " [] [])
                  [ {| role := "user"; content := "hi" |} ] "gpt-4o-mini"
                  0.4%Q 180%Z) "[]").
  reflexivity.
Defined.

(** ** The knowledge search *)

Lemma mongo_text_search_blank_cases (w : World) (query : string)
  (limit : nat) :
  (all_space query = true -> _mongo_text_search w query limit = [])
  /\ (all_space query = false ->
      _mongo_text_search w query limit = firstn limit (kb_find w query)).
Proof.
  assert (E : truthy query && truthy (strip query) = negb (all_space query)).
  { destruct (all_space query) eqn:A.
    - apply strip_empty in A. rewrite A. apply andb_false_r.
    - destruct query as [|c r]; [discriminate|].
      destruct (strip (String c r)) eqn:S; [|reflexivity].
      apply strip_empty in S. congruence. }
  unfold _mongo_text_search. rewrite E, negb_involutive.
  split; now intros ->.
Qed.



(** ** More on the escalation signal *)

Lemma occurs_trans (a b c : string) :
  occurs_in a b -> occurs_in b c -> occurs_in a c.
Proof.
  intros (p1 & q1 & ->) (p2 & q2 & ->).
  exists (p2 ++ p1), (q1 ++ q2). now rewrite !append_assoc.
Qed.

Lemma should_offer_occurs (q a : string) (hits : nat) :
  _should_offer_live_chat q a hits = true
  <-> (exists kw, In kw ESCALATION_KEYWORDS /\ occurs_in kw (lower q))
      \/ (exists p, In p low_conf /\ occurs_in p (lower a)).
Proof.
  unfold _should_offer_live_chat, _wants_human.
  rewrite <- !any_in_occurs.
  destruct (any_in ESCALATION_KEYWORDS (lower q)); [tauto|].
  split; [now right | intros [H|H]; [discriminate | exact H]].
Qed.

(** X3.  The escalation signal of [build_llm_style_followups] is a function of
    the lower-cased question and the lower-cased answer alone: the
    settings, the knowledge base, the language model, the number of hits
    and [k] have no part in it. *)
Theorem escalation_depends_on_text_only (w w' : World) (q q' a a' : string)
  (k k' : Z) :
  lower q = lower q' -> lower a = lower a' ->
  escalate_of (build_llm_style_followups w q a k)
  = escalate_of (build_llm_style_followups w' q' a' k').
Proof.
  intros Hq Ha. rewrite !escalate_of_build.
  unfold _should_offer_live_chat, _wants_human. now rewrite Hq, Ha.
Qed.

Lemma escalation_depends_on_text_only_witness :
  lower "I need a HUMAN" = lower "i need a human"
  /\ escalate_of
       (build_llm_style_followups (Examples.offline [] []) "I need a HUMAN"
          "Ok" 4)
     = escalate_of
         (build_llm_style_followups
            (Examples.scripted "[]" [ Examples.titled "Tuition" ] [])
            "i need a human" "OK" 0).
Proof.
  split; [reflexivity|].
  apply (escalation_depends_on_text_only (Examples.offline [] [])
           (Examples.scripted "[]" [ Examples.titled "Tuition" ] [])
           "I need a HUMAN" "i need a human" "Ok" "OK" 4 0);
    reflexivity.
Defined.

(** X4.  Text added around the question or around the answer never takes an
    escalation away: when a question and an answer escalate, so do every
    question and answer that contain them. *)
Theorem escalation_survives_context (w w' : World) (q q' a a' : string)
  (k k' : Z) :
  occurs_in q q' -> occurs_in a a' ->
  escalate_of (build_llm_style_followups w q a k) = true ->
  escalate_of (build_llm_style_followups w' q' a' k') = true.
Proof.
  intros Hq Ha. rewrite !escalate_of_build, !should_offer_occurs.
  intros [(kw & Hin & H)|(p & Hin & H)]; [left; exists kw | right; exists p];
    (split; [exact Hin|]);
    eapply occurs_trans; eauto using occurs_lower.
Qed.

Lemma escalation_survives_context_witness :
  occurs_in "call" "please call me back"
  /\ occurs_in "" "Sure."
  /\ escalate_of
       (build_llm_style_followups (Examples.offline [] [])
          "please call me back" "Sure." 4) = true.
Proof.
  assert (Hq : occurs_in "call" "please call me back")
    by (exists "please ", " me back"; reflexivity).
  assert (Ha : occurs_in "" "Sure.") by (exists "", "Sure."; reflexivity).
  split; [exact Hq|]. split; [exact Ha|].
  apply (escalation_survives_context (Examples.offline [] [])
           (Examples.offline [] []) "call" "please call me back" ""
           "Sure." 4 4 Hq Ha).
  reflexivity.
Defined.

(** ** The loop that cleans the model's suggestions *)

Section UniqLoopMore.

Variable k : Z.

Lemma uniq_loop_step (it : string) (rest uniq seen : list string) :
  uniq_loop (it :: rest) uniq seen k
  = if truthy (clean it) && negb (mem (lower (clean it)) seen)
    then if (Z.of_nat (List.length (uniq ++ [clean it])%list) >=? k)%Z
         then (uniq ++ [clean it])%list
         else uniq_loop rest (uniq ++ [clean it])%list
                (lower (clean it) :: seen) k
    else if (Z.of_nat (List.length uniq) >=? k)%Z then uniq
         else uniq_loop rest uniq seen k.
Proof.
  cbn [uniq_loop]. unfold clean. cbv zeta.
  destruct (truthy _ && negb _); reflexivity.
Qed.

Lemma uniq_loop_bound (items uniq seen : list string) :
  (Z.of_nat (List.length (uniq_loop items uniq seen k))
   <= Z.max (Z.of_nat (List.length uniq) + 1) k)%Z.
Proof.
  revert uniq seen; induction items as [|it rest IH]; intros uniq seen.
  - cbn. lia.
  - rewrite uniq_loop_step.
    destruct (truthy (clean it) && negb (mem (lower (clean it)) seen)).
    + destruct (Z.geb_spec (Z.of_nat (List.length (uniq ++ [clean it])%list)) k)
        as [G|G].
      * rewrite length_app. cbn. lia.
      * specialize (IH (uniq ++ [clean it])%list (lower (clean it) :: seen)).
        rewrite length_app in *. cbn in *. lia.
    + destruct (Z.geb_spec (Z.of_nat (List.length uniq)) k) as [G|G];
        [lia|]. specialize (IH uniq seen). lia.
Qed.

Lemma kept_in_order_nil {A : Type} (l : list A) : kept_in_order [] l.
Proof. induction l; constructor; assumption. Qed.

Lemma uniq_loop_extends (items uniq seen : list string) :
  exists tail,
    uniq_loop items uniq seen k = (uniq ++ tail)%list
    /\ kept_in_order tail (map clean items).
Proof.
  revert uniq seen; induction items as [|it rest IH]; intros uniq seen.
  - exists []. split; [now rewrite app_nil_r | constructor].
  - rewrite uniq_loop_step. cbn [map].
    destruct (truthy (clean it) && negb (mem (lower (clean it)) seen)).
    + destruct (Z.of_nat _ >=? k)%Z.
      * exists [clean it]. split; [reflexivity|].
        constructor. apply kept_in_order_nil.
      * destruct (IH (uniq ++ [clean it])%list (lower (clean it) :: seen))
          as (tail & -> & K).
        exists (clean it :: tail). split; [now rewrite <- app_assoc|].
        now constructor.
    + destruct (Z.of_nat _ >=? k)%Z.
      * exists []. split; [now rewrite app_nil_r|].
        apply kept_in_order_nil.
      * destruct (IH uniq seen) as (tail & -> & K).
        exists tail. split; [reflexivity | now constructor].
Qed.

Lemma uniq_loop_complete (items uniq seen : list string) :
  (Z.of_nat (List.length uniq + List.length items) < k)%Z ->
  (forall x, In x seen -> In x (map lower uniq)) ->
  forall it, In it items -> clean it <> "" ->
             In (lower (clean it)) (map lower (uniq_loop items uniq seen k)).
Proof.
  revert uniq seen; induction items as [|it0 rest IH];
    intros uniq seen Hk Hseen it Hin Hne; [destruct Hin|].
  rewrite uniq_loop_step. cbn [List.length] in Hk.
  destruct (truthy (clean it0) && negb (mem (lower (clean it0)) seen)) eqn:E.
  - destruct (Z.geb_spec (Z.of_nat (List.length (uniq ++ [clean it0])%list)) k)
      as [G|G]; [rewrite length_app in G; cbn in G; lia|].
    destruct Hin as [->|Hin].
    + destruct (uniq_loop_extends rest (uniq ++ [clean it])%list
                  (lower (clean it) :: seen)) as (tail & -> & _).
      rewrite !map_app. apply in_or_app. left. apply in_or_app. right.
      now left.
    + apply IH; trivial.
      * rewrite length_app. cbn. lia.
      * intros x [<-|Hx]; rewrite map_app; apply in_or_app;
          [right; now left | left; now apply Hseen].
  - destruct (Z.geb_spec (Z.of_nat (List.length uniq)) k) as [G|G]; [lia|].
    destruct Hin as [->|Hin].
    + apply andb_false_iff in E as [E|E].
      * apply truthy_nonempty in Hne. congruence.
      * apply negb_false_iff, mem_In, Hseen in E.
        destruct (uniq_loop_extends rest uniq seen) as (tail & -> & _).
        rewrite map_app. apply in_or_app. now left.
    + apply IH; trivial. lia.
Qed.

End UniqLoopMore.

Lemma llm_followups_loop (w : World) (q a : string) (candidates : list Hit)
  (k : Z) (suggestions : list string) :
  _llm_generate_followups w q a candidates k = Ok suggestions ->
  exists text, suggestions = uniq_loop (_safe_json_list w text) [] [] k.
Proof.
  unfold _llm_generate_followups, bind.
  destruct (llm_complete _ _ _ _ _) as [text|e]; [|discriminate].
  intro H. injection H as <-. eauto.
Qed.

(** X5.  The loop stops as soon as [uniq] has [k] entries, and it looks at the
    length only after an item: [_llm_generate_followups] returns at most
    [k] suggestions when [k >= 1], and at most one when [k <= 0]. *)
Theorem llm_followups_cap :
  (forall (items : list string) (k : Z),
      (Z.of_nat (List.length (uniq_loop items [] [] k)) <= Z.max 1 k)%Z)
  /\ (forall (w : World) (q a : string) (candidates : list Hit) (k : Z)
        (suggestions : list string),
         _llm_generate_followups w q a candidates k = Ok suggestions ->
         (Z.of_nat (List.length suggestions) <= Z.max 1 k)%Z).
Proof.
  assert (L : forall items k,
             (Z.of_nat (List.length (uniq_loop items [] [] k))
              <= Z.max 1 k)%Z)
    by (intros items k; exact (uniq_loop_bound k items [] [])).
  split; [exact L|].
  intros w q a candidates k suggestions H.
  destruct (llm_followups_loop _ _ _ _ _ _ H) as [text ->]. apply L.
Qed.

Lemma llm_followups_cap_witness :
  _llm_generate_followups
    (Examples.scripted Examples.chatty_reply [] []) "q" "a" [] 0%Z
  = Ok [ "a" ]
  /\ (Z.of_nat (List.length [ "a" ]) <= Z.max 1 0)%Z.
Proof.
  split; [reflexivity|].
  apply (proj2 llm_followups_cap
           (Examples.scripted Examples.chatty_reply [] []) "q" "a" [] 0%Z).
  reflexivity.
Defined.

(** X6.  The suggestions are items of the model's list, each stripped and
    without one trailing question mark, in the order of the list. *)
Theorem uniq_loop_in_order (items : list string) (k : Z) :
  kept_in_order (uniq_loop items [] [] k) (map clean items).
Proof.
  destruct (uniq_loop_extends k items [] []) as (tail & -> & K). exact K.
Qed.

(** X7.  When [k] is larger than the number of items the loop loses nothing but
    empty items and repetitions: every item that is not empty once cleaned
    is among the suggestions, up to case. *)
Theorem uniq_loop_loses_duplicates_only (items : list string) (k : Z)
  (it : string) :
  (Z.of_nat (List.length items) < k)%Z ->
  In it items -> clean it <> "" ->
  In (lower (clean it)) (map lower (uniq_loop items [] [] k)).
Proof.
  intros Hk Hin Hne.
  apply uniq_loop_complete; trivial.
Qed.

Lemma uniq_loop_loses_duplicates_only_witness :
  (Z.of_nat (List.length [ "Apply now"; " apply NOW? "; "" ]) < 4)%Z
  /\ In " apply NOW? " [ "Apply now"; " apply NOW? "; "" ]
  /\ clean " apply NOW? " <> ""
  /\ In (lower (clean " apply NOW? "))
       (map lower (uniq_loop [ "Apply now"; " apply NOW? "; "" ] [] [] 4)).
Proof.
  assert (H1 : (Z.of_nat (List.length [ "Apply now"; " apply NOW? "; "" ])
                < 4)%Z) by (cbn; lia).
  assert (H2 : In " apply NOW? " [ "Apply now"; " apply NOW? "; "" ])
    by (right; now left).
  assert (H3 : clean " apply NOW? " <> "") by discriminate.
  repeat split; trivial.
  exact (uniq_loop_loses_duplicates_only _ 4 _ H1 H2 H3).
Defined.

(** ** More on the follow-up generator *)

(** [build_llm_style_followups] path by path. *)
Lemma build_paths (w : World) (q a : string) (k : Z) :
  build_llm_style_followups w q a k
  = (slice_upto k
       (map faq_chip
          (if llm_enabled w
           then match _llm_generate_followups w q a (hits_of w q a) k with
                | Ok (s :: rest) => s :: rest
                | _ => fallback_suggestions (hits_of w q a) k
                end
           else fallback_suggestions (hits_of w q a) k)),
     _should_offer_live_chat q a (List.length (hits_of w q a)),
     if llm_enabled w
     then match _llm_generate_followups w q a (hits_of w q a) k with
          | Ok (_ :: _) => "openai"
          | Ok [] => "fallback"
          | Raise _ => "fallback_error"
          end
     else "fallback").
Proof.
  unfold build_llm_style_followups. fold (hits_of w q a).
  fold (llm_enabled w). unfold fallback_suggestions. cbv zeta.
  destruct (llm_enabled w);
    [destruct (_llm_generate_followups w q a (hits_of w q a) k)
       as [[|s rest]|e]|];
    cbn; try reflexivity;
    destruct (nonempty (slice_upto k _)); reflexivity.
Qed.

Lemma slice_upto_keeps_one {A : Type} (k : Z) (l : list A) :
  (1 <= k)%Z -> l <> [] -> slice_upto k l <> [].
Proof.
  intros Hk Hl. unfold slice_upto.
  destruct (Z.leb_spec 0 k) as [_|]; [|lia].
  destruct l as [|x l]; [now elim Hl|].
  destruct (Z.to_nat k) eqn:E; [lia | discriminate].
Qed.

Lemma fallback_keeps_one (hits : list Hit) (k : Z) :
  (1 <= k)%Z -> fallback_suggestions hits k <> [].
Proof.
  intro Hk. unfold fallback_suggestions. cbv zeta.
  destruct (slice_upto k (filter truthy (titles_of (firstn 6 hits))))
    eqn:E; cbn [nonempty]; [|discriminate].
  apply slice_upto_keeps_one; [exact Hk | discriminate].
Qed.

Lemma build_chips_some (w : World) (q a : string) (k : Z) :
  (1 <= k)%Z -> chips_of (build_llm_style_followups w q a k) <> [].
Proof.
  intro Hk. rewrite build_paths. unfold chips_of. cbn [fst].
  apply slice_upto_keeps_one; [exact Hk|].
  intro H. apply map_eq_nil in H. revert H.
  destruct (llm_enabled w);
    [destruct (_llm_generate_followups _ _ _ _ _) as [[|s rest]|e]|];
    try discriminate; now apply fallback_keeps_one.
Qed.



(** X9.  Every chip is an FAQ chip that asks for its own label. *)
Theorem followups_query_is_label (w : World) (q a : string) (k : Z) :
  Forall (fun c => payload c = Faq (label c))
    (chips_of (build_llm_style_followups w q a k)).
Proof.
  rewrite build_paths. unfold chips_of. cbn [fst].
  apply Forall_slice_upto, Forall_map, Forall_forall. reflexivity.
Qed.

(** X10.  The source tells what happened: "openai" exactly when the model was
    asked and gave at least one suggestion, "fallback_error" exactly when it
    was asked and the call raised, "fallback" when it was not asked or gave
    none; when it is not asked the clients have no part in the result. *)
Theorem followups_source (w : World) (q a : string) (k : Z) :
  (source_of (build_llm_style_followups w q a k) = "openai"
   <-> llm_enabled w = true
       /\ exists s rest,
           _llm_generate_followups w q a (hits_of w q a) k = Ok (s :: rest))
  /\ (source_of (build_llm_style_followups w q a k) = "fallback_error"
      <-> llm_enabled w = true
          /\ exists e,
              _llm_generate_followups w q a (hits_of w q a) k = Raise e)
  /\ (llm_enabled w = false ->
      build_llm_style_followups w q a k
      = (slice_upto k (map faq_chip (fallback_suggestions (hits_of w q a) k)),
         _should_offer_live_chat q a (List.length (hits_of w q a)),
         "fallback")).
Proof.
  rewrite build_paths. unfold source_of. cbn [snd].
  destruct (llm_enabled w);
    [destruct (_llm_generate_followups w q a (hits_of w q a) k)
       as [[|s rest]|e]|];
    (split; [|split]);
    try (split; [discriminate | intros (_ & x & H); discriminate]);
    try (split; [discriminate | intros (_ & x & y & H); discriminate]);
    try (split; [discriminate | intros (H & _); discriminate]);
    try discriminate; try reflexivity.
  - split; [intros _; split; eauto | reflexivity].
  - split; [intros _; split; eauto | reflexivity].
Qed.

Lemma followups_source_witness :
  llm_enabled (Examples.offline [ Examples.titled "Tuition" ] []) = false
  /\ build_llm_style_followups
       (Examples.offline [ Examples.titled "Tuition" ] []) "fees" "" 4
     = ([ faq_chip "Tuition" ], false, "fallback").
Proof.
  split; [reflexivity|].
  rewrite (proj2 (proj2 (followups_source
                           (Examples.offline [ Examples.titled "Tuition" ] [])
                           "fees" "" 4)) eq_refl).
  reflexivity.
Defined.

Lemma titles_of_In (hits : list Hit) (t : string) :
  In t (titles_of hits) -> exists h, In h hits /\ title h = Some t.
Proof.
  induction hits as [|h rest IH]; cbn; [intros []|].
  destruct (title h) as [t'|] eqn:E.
  - destruct (truthy t'); [intros [<-|H]|intro H]; eauto;
      destruct (IH H) as (h' & Hin & Eh); eauto.
  - intro H. destruct (IH H) as (h' & Hin & Eh); eauto.
Qed.

Lemma slice_upto_In {A : Type} (k : Z) (l : list A) (x : A) :
  In x (slice_upto k l) -> In x l.
Proof.
  destruct (slice_upto_firstn k l) as [n ->]. intro H.
  rewrite <- (firstn_skipn n l). apply in_or_app. now left.
Qed.

(** X11.  Without a suggestion of the model, every chip is labelled with the
    title of one of the first six hits or with a generic suggestion. *)
Theorem followups_fallback_labels (w : World) (q a : string) (k : Z)
  (c : Chip) :
  source_of (build_llm_style_followups w q a k) <> "openai" ->
  In c (chips_of (build_llm_style_followups w q a k)) ->
  (exists h, In h (firstn 6 (hits_of w q a)) /\ title h = Some (label c))
  \/ In (label c) generic_suggestions.
Proof.
  intros Hsrc Hin.
  destruct (build_cases w q a k) as [(S & _)|(_ & E)]; [now elim Hsrc|].
  rewrite E in Hin. apply slice_upto_In, in_map_iff in Hin as (t & <- & Ht).
  cbn [label faq_chip]. unfold fallback_suggestions in Ht. cbv zeta in Ht.
  destruct (nonempty _); apply slice_upto_In in Ht.
  - left. apply filter_In in Ht as [Ht _]. now apply titles_of_In.
  - now right.
Qed.

Lemma followups_fallback_labels_witness :
  source_of
    (build_llm_style_followups
       (Examples.offline [ Examples.titled "Tuition" ] []) "fees" "" 4)
  <> "openai"
  /\ ((exists h,
          In h (firstn 6 (hits_of
                            (Examples.offline [ Examples.titled "Tuition" ] [])
                            "fees" ""))
          /\ title h = Some (label (faq_chip "Tuition")))
      \/ In (label (faq_chip "Tuition")) generic_suggestions).
Proof.
  assert (H : source_of
                (build_llm_style_followups
                   (Examples.offline [ Examples.titled "Tuition" ] [])
                   "fees" "" 4) <> "openai") by discriminate.
  split; [exact H|].
  apply (followups_fallback_labels
           (Examples.offline [ Examples.titled "Tuition" ] []) "fees" "" 4
           (faq_chip "Tuition") H).
  now left.
Defined.

(** ** More on the question-answering handlers *)

Lemma build_chips_at_most (w : World) (q a : string) (k : Z) :
  (0 <= k)%Z ->
  (Z.of_nat (List.length (chips_of (build_llm_style_followups w q a k)))
   <= k)%Z.
Proof.
  intro Hk. rewrite build_paths. unfold chips_of. cbn [fst].
  now apply slice_upto_length.
Qed.

Lemma chat_question_unfold (w : World) (q : string) :
  chat_question w q
  = match get_answer w q with
    | Ok answer =>
        let b := build_llm_style_followups w q (or_empty answer) 4 in
        Ok {| Answer.answer := answer;
              Answer.suggest_live_chat := escalate_of b;
              Answer.suggested_followups :=
                if escalate_of b then [ admin_chip ] else chips_of b;
              Answer.followup_generator :=
                if debug_followups (settings w) then Some (source_of b)
                else None |}
    | Raise e => Raise e
    end.
Proof.
  unfold chat_question, bind, escalate_of, chips_of, source_of.
  destruct (get_answer w q) as [answer|e]; [|reflexivity].
  destruct (build_llm_style_followups w q (or_empty answer) 4)
    as [[chips slc] src].
  reflexivity.
Qed.



(** X13.  The two handlers agree: when the chunks of the stream add up to the
    answer of the synchronous call, the stream's follow-ups event carries
    the live-chat flag, the chips and the generator name of the synchronous
    response. *)
Theorem stream_agrees_with_reply (w : World) (q : string) (r : Answer.t) :
  chat_question w q = Ok r ->
  or_empty (Answer.answer r) = String.concat "" (get_answer_stream w q) ->
  event_generator w q
  = (map Chunk (get_answer_stream w q)
     ++ [ FollowupsEvent (Answer.suggest_live_chat r)
            (Answer.suggested_followups r) (Answer.followup_generator r);
          Done ])%list.
Proof.
  rewrite chat_question_unfold, event_generator_events, followup_data_unfold.
  destruct (get_answer w q) as [answer|e]; [|discriminate].
  cbv zeta. intro H. injection H as <-. cbn. now intros ->.
Qed.

Lemma stream_agrees_with_reply_witness :
  exists r,
    chat_question (Examples.offline [] [ "Hi "; "there" ]) "hello" = Ok r
    /\ event_generator (Examples.offline [] [ "Hi "; "there" ]) "hello"
       = [ Chunk "Hi "; Chunk "there";
           FollowupsEvent (Answer.suggest_live_chat r)
             (Answer.suggested_followups r) (Answer.followup_generator r);
           Done ].
Proof.
  eexists. split; [reflexivity|].
  apply (stream_agrees_with_reply (Examples.offline [] [ "Hi "; "there" ])
           "hello");
    reflexivity.
Defined.

(** ** More on ticket extraction *)

Section Pieces.

Lemma lstrip_suffix (s : string) : exists pre, s = pre ++ lstrip s.
Proof.
  induction s as [|c r [pre IH]]; [now exists ""|]. cbn.
  destruct (is_space c); [|now exists ""].
  exists (String c pre). cbn. now rewrite <- IH.
Qed.

Lemma rstrip_prefix (s : string) : exists post, s = rstrip s ++ post.
Proof.
  induction s as [|c r [post IH]]; [now exists ""|]. cbn.
  destruct (rstrip r) as [|d r'] eqn:E.
  - destruct (is_space c); [now exists (String c r)|].
    exists post. cbn. now rewrite IH at 1.
  - exists post. cbn. now rewrite IH at 1.
Qed.

Lemma strip_occurs (s : string) : occurs_in (strip s) s.
Proof.
  unfold strip. destruct (lstrip_suffix s) as [pre E].
  destruct (rstrip_prefix (lstrip s)) as [post F].
  exists pre, post. now rewrite <- F.
Qed.

Lemma str_upto_prefix (n : nat) (s : string) :
  exists post, s = str_upto n s ++ post.
Proof.
  unfold str_upto. revert n; induction s as [|c r IH]; intros [|n]; cbn.
  - now exists "".
  - now exists "".
  - now exists (String c r).
  - destruct (IH n) as [post E]. exists post. now rewrite <- E.
Qed.

Lemma str_upto_length (n : nat) (s : string) :
  (String.length (str_upto n s) <= n)%nat.
Proof.
  unfold str_upto. revert n; induction s as [|c r IH]; intros [|n]; cbn;
    try lia.
  specialize (IH n). lia.
Qed.

Lemma take_line_one_line (s : string) : ~ occurs_in nl (take_line s).
Proof.
  induction s as [|c r IH]; cbn.
  - intros (pre & post & E). destruct pre; discriminate.
  - destruct (Ascii.eqb_spec c newline) as [->|ne].
    + intros (pre & post & E). destruct pre; discriminate.
    + intro H. apply occurs_char_inv in H as [E|H]; [now elim ne | auto].
Qed.

Lemma group_one_line (s g : string) :
  spaces_then_group false s = Some g -> ~ occurs_in nl g.
Proof.
  revert g; induction s as [|c r IH]; intros g; cbn [spaces_then_group];
    [discriminate|].
  assert (D : dot_plus false (String c r) = Some g -> ~ occurs_in nl g).
  { unfold dot_plus. destruct (truthy _); [|discriminate].
    intro H. injection H as <-. exact (take_line_one_line (String c r)). }
  destruct (is_space c); [|exact D].
  destruct (spaces_then_group false r) as [g'|]; [|exact D].
  intro H. injection H as <-. now apply IH.
Qed.

Lemma field_one_line (label text g : string) :
  search_field label false text = Some g -> ~ occurs_in nl g.
Proof.
  induction text as [|c r IH]; cbn [search_field].
  - destruct (after label "") as [rest|];
      [destruct (spaces_then_group false rest) eqn:E|]; try discriminate.
    intro H. injection H as <-. exact (group_one_line _ _ E).
  - destruct (after label (String c r)) as [rest|];
      [destruct (spaces_then_group false rest) eqn:E|]; try exact IH.
    intro H. injection H as <-. exact (group_one_line _ _ E).
Qed.

End Pieces.

Lemma coerced_valid (x default : string) (valid : list string) :
  In default valid ->
  In (if negb (mem x valid) then default else x) valid.
Proof.
  intro H. destruct (mem x valid) eqn:M; cbn [negb];
    [now apply mem_In | exact H].
Qed.

(** X14.  Whatever the model answers, the ticket is well formed: the category is
    one of the six categories, the priority one of the three priorities,
    and the subject is a single line of at most 100 characters. *)
Theorem ticket_well_formed (w : World) (message : string) (t : Ticket.t) :
  analyze_ticket_request w message = Ok t ->
  In (Ticket.category t) valid_categories
  /\ In (Ticket.priority t) valid_priorities
  /\ (String.length (Ticket.subject t) <= 100)%nat
  /\ ~ occurs_in nl (Ticket.subject t).
Proof.
  unfold analyze_ticket_request, try_except, bind.
  destruct (get_answer w (analysis_prompt message)) as [[answer|]|e];
    try (intro H; injection H as <-; cbn;
         repeat split; try tauto; try lia;
         apply contains_absent; reflexivity).
  intro H. injection H as <-. cbn [Ticket.category Ticket.priority Ticket.subject].
  split; [|split; [|split]].
  - exact (coerced_valid
             (group_or (search_field "CATEGORY:" false answer) "Other")
             "Other" valid_categories ltac:(cbn; tauto)).
  - exact (coerced_valid
             (group_or (search_field "PRIORITY:" false answer) "Medium")
             "Medium" valid_priorities ltac:(cbn; tauto)).
  - apply str_upto_length.
  - intro N.
    destruct (str_upto_prefix 100
                (group_or (search_field "SUBJECT:" false answer)
                   "Support Request")) as [post E].
    assert (O : occurs_in nl
                  (group_or (search_field "SUBJECT:" false answer)
                     "Support Request")).
    { rewrite E. destruct N as (a & b & ->).
      exists a, (b ++ post). now rewrite !append_assoc. }
    unfold group_or in O.
    destruct (search_field "SUBJECT:" false answer) as [g|] eqn:S.
    + apply (field_one_line _ _ _ S).
      exact (occurs_trans _ _ _ O (strip_occurs g)).
    + apply contains_absent in O; [exact O | reflexivity].
Qed.

Lemma ticket_well_formed_witness :
  exists t,
    analyze_ticket_request
      (Examples.offline []
         [ "SUBJECT: Wifi"; nl; "CATEGORY: Network"; nl; "PRIORITY: urgent" ])
      "wifi is down" = Ok t
    /\ Ticket.category t = "Other"
    /\ Ticket.priority t = "Medium"
    /\ In (Ticket.category t) valid_categories.
Proof.
  eexists. split; [reflexivity|]. split; [reflexivity|].
  split; [reflexivity|].
  apply (ticket_well_formed
           (Examples.offline []
              [ "SUBJECT: Wifi"; nl; "CATEGORY: Network"; nl;
                "PRIORITY: urgent" ])
           "wifi is down").
  reflexivity.
Defined.

Section DescriptionField.

Lemma after_label (label rest : string) :
  after label (label ++ rest) = Some rest.
Proof.
  induction label as [|c label IH]; cbn; [now destruct rest|].
  now rewrite Ascii.eqb_refl.
Qed.

Lemma strip_leading_space (c : ascii) (r : string) :
  is_space c = true -> strip (String c r) = strip r.
Proof. intro H. unfold strip. cbn [lstrip]. now rewrite H. Qed.

(** With [re.DOTALL] the group takes everything after the white space. *)
Lemma group_to_the_end (rest : string) :
  rest <> "" ->
  exists g, spaces_then_group true rest = Some g /\ strip g = strip rest.
Proof.
  induction rest as [|c r IH]; intro H; [now elim H|].
  cbn [spaces_then_group].
  assert (D : dot_plus true (String c r) = Some (String c r))
    by reflexivity.
  destruct (is_space c) eqn:S; [|rewrite D; eauto].
  destruct r as [|d r'].
  - cbn [spaces_then_group]. rewrite D. eauto.
  - destruct (IH ltac:(discriminate)) as (g & -> & E).
    exists g. split; [reflexivity|].
    now rewrite (strip_leading_space c _ S).
Qed.

Lemma search_field_first (label pre rest text : string) :
  first_at label pre rest text -> rest <> "" ->
  exists g, search_field label true text = Some g /\ strip g = strip rest.
Proof.
  intros [-> Hmin] Hrest. induction pre as [|c pre IH].
  - change ("" ++ label ++ rest) with (label ++ rest).
    destruct (group_to_the_end rest Hrest) as (g & G & E).
    exists g. split; [|exact E].
    destruct (label ++ rest) eqn:T; cbn [search_field];
      rewrite <- T, after_label, G; reflexivity.
  - change (String c pre ++ label ++ rest)
      with (String c (pre ++ label ++ rest)) in *.
    cbn [search_field].
    destruct (after label (String c (pre ++ label ++ rest))) as [r'|] eqn:A.
    + apply after_append in A.
      specialize (Hmin "" r' A). cbn in Hmin. lia.
    + apply IH. intros pre' rest' E.
      specialize (Hmin (String c pre') rest').
      cbn in Hmin. rewrite E in Hmin. specialize (Hmin eq_refl). lia.
Qed.

End DescriptionField.



(** ** More on the map lookup *)

Ltac in_table := repeat (first [ left; reflexivity | right ]).

(** Every building's lower-cased name contains one of its own aliases. *)
Lemma name_has_alias (kb : string * Building.t) :
  In kb buildings ->
  exists key,
    In (key, snd kb) buildings
    /\ occurs_in key (lower (Building.name (snd kb))).
Proof.
  intro Hin. unfold buildings in Hin.
  repeat (destruct Hin as [<-|Hin];
          [first [ exists "sciences"; split;
                   [in_table | apply contains_occurs; reflexivity]
                 | exists "wellness"; split;
                   [in_table | apply contains_occurs; reflexivity]
                 | eexists; split;
                   [left; reflexivity | apply contains_occurs; reflexivity]
                 | eexists; split;
                   [do 1 right; left; reflexivity
                   | apply contains_occurs; reflexivity]
                 | eexists; split;
                   [in_table | apply contains_occurs; reflexivity] ]|]).
  destruct Hin.
Qed.

Lemma map_loop_some (message : string) (items : list (string * Building.t))
  (r : MapReply.t) :
  map_loop message items = Some r ->
  exists key b,
    In (key, b) items /\ r = located b /\ alias_answers message (key, b).
Proof.
  induction items as [|[key b] rest IH]; cbn [map_loop]; [discriminate|].
  destruct (contains key message
            || contains (lower (Building.name b)) message) eqn:E.
  - intro H. injection H as <-. exists key, b.
    split; [now left|]. split; [reflexivity|]. now apply answers_iff.
  - intro H. destruct (IH H) as (k' & b' & Hin & R & A).
    exists k', b'. split; [now right | now split].
Qed.

Lemma map_loop_none_inv (message : string)
  (items : list (string * Building.t)) :
  map_loop message items = None ->
  forall kb, In kb items -> ~ occurs_in (fst kb) message.
Proof.
  induction items as [|[key b] rest IH]; cbn [map_loop]; [intros _ kb []|].
  destruct (contains key message
            || contains (lower (Building.name b)) message) eqn:E;
    [discriminate|].
  intros H kb [<-|Hin]; [|now apply IH].
  apply orb_false_iff in E as [E _]. now apply contains_absent.
Qed.

(** X16.  The aliases decide the map lookup on their own.  A building is
    returned only when one of its alias keys occurs in the lower-cased
    message, and the full map is returned exactly when no alias key of the
    table occurs in it: the test on the building's name never adds a
    match. *)
Theorem map_lookup_by_alias (msg : string) :
  exists r,
    analyze_map_request msg = Ok r
    /\ (forall b,
           MapReply.location r = Some b ->
           exists key,
             In (key, b) buildings /\ occurs_in key (lower msg))
    /\ (MapReply.location r = None
        <-> forall kb, In kb buildings -> ~ occurs_in (fst kb) (lower msg)).
Proof.
  unfold analyze_map_request, try_except.
  destruct (map_loop (lower msg) buildings) as [r|] eqn:E.
  - exists r. split; [reflexivity|].
    destruct (map_loop_some _ _ _ E) as (key & b & Hin & -> & [A|A]);
      cbn [MapReply.location located fst snd] in *.
    + split.
      * intros b' H. injection H as <-. eauto.
      * split; [discriminate|]. intro H. now elim (H _ Hin).
    + destruct (name_has_alias _ Hin) as (key' & Hin' & O).
      cbn [snd] in *. pose proof (occurs_trans _ _ _ O A) as O'.
      split.
      * intros b' H. injection H as <-. eauto.
      * split; [discriminate|]. intro H. now elim (H _ Hin').
  - exists full_map. split; [reflexivity|]. split; [discriminate|].
    split; [intros _|reflexivity]. now apply map_loop_none_inv.
Qed.

Lemma map_lookup_by_alias_witness :
  exists key,
    In (key, mary_and_jeff_bell_library) buildings
    /\ occurs_in key (lower "Where is the Library?").
Proof.
  destruct (map_lookup_by_alias "Where is the Library?") as (r & E & H & _).
  assert (E' : analyze_map_request "Where is the Library?"
               = Ok (located mary_and_jeff_bell_library)) by reflexivity.
  rewrite E' in E. injection E as <-. apply H. reflexivity.
Defined.

(** ** More on the routing lookup *)

Section RoutingTexts.

Lemma join_member (sep x : string) (l : list string) :
  In x l -> occurs_in x (join sep l).
Proof.
  induction l as [|y l IH]; [intros []|].
  intros [->|Hin].
  - destruct l as [|z l]; cbn [join].
    + exists "", "". now rewrite append_empty.
    + exists "", (sep ++ join sep (z :: l)). reflexivity.
  - destruct l as [|z l]; [destruct Hin|].
    destruct (IH Hin) as (pre & post & E).
    change (join sep (y :: z :: l)) with (y ++ sep ++ join sep (z :: l)).
    rewrite E. exists (y ++ sep ++ pre), post. now rewrite !append_assoc.
Qed.

Lemma split_piece (s sep x : string) :
  sep <> "" -> In x (split s sep) -> occurs_in x s.
Proof.
  intros Hsep Hin. rewrite <- (split_join sep s Hsep).
  now apply join_member.
Qed.

Lemma isolated_occurs (message : string) (pattern : string * string)
  (o d : string) :
  fst pattern <> "" -> snd pattern <> "" ->
  isolated message pattern = Some (o, d) ->
  occurs_in (fst pattern) message /\ occurs_in (snd pattern) message
  /\ occurs_in o message /\ occurs_in d message.
Proof.
  intros H0 H1. unfold isolated.
  destruct (contains (fst pattern) message) eqn:C0; [|discriminate].
  destruct (contains (snd pattern) message) eqn:C1; [|discriminate].
  cbn [andb].
  destruct (split message (fst pattern)) as [|p0 [|second parts]] eqn:S;
    try discriminate.
  destruct (split second (snd pattern)) as [|s0 [|s1 rest]] eqn:T;
    try discriminate.
  intro H. injection H as <- <-.
  assert (Osec : occurs_in second message).
  { apply (split_piece _ (fst pattern)); [exact H0|].
    rewrite S. right. now left. }
  split; [now apply contains_occurs|]. split; [now apply contains_occurs|].
  split; (eapply occurs_trans; [apply strip_occurs|]);
    (eapply occurs_trans; [|exact Osec]);
    apply (split_piece _ (snd pattern)); trivial; rewrite T;
    [now left | right; now left].
Qed.

Lemma last_some_member {A B : Type} (f : A -> option B) (l : list A)
  (b : B) :
  last_some (map f l) = Some b -> exists x, In x l /\ f x = Some b.
Proof.
  induction l as [|x l IH]; cbn; [discriminate|].
  destruct (last_some (map f l)) as [y|].
  - intro H. destruct (IH H) as (z & Hin & E). eauto.
  - intro H. eauto.
Qed.

Lemma last_alias_member (text : string) (b : Place.t) :
  last_alias text = Some b ->
  exists key, In (key, b) routing_buildings /\ occurs_in key text.
Proof.
  unfold last_alias. intro H.
  apply last_some_member in H as ([key b'] & Hin & E). cbn [fst snd] in E.
  destruct (contains key text) eqn:C; [|discriminate].
  injection E as ->. exists key. split; [exact Hin|].
  now apply contains_occurs.
Qed.

Lemma resolved_by_pattern (message : string) (b : Place.t)
  (by_pattern : string -> string * string -> option Place.t) :
  (forall p, by_pattern message p = origin_by message p)
  \/ (forall p, by_pattern message p = destination_by message p) ->
  last_some (map (by_pattern message) routing_patterns) = Some b ->
  exists key pattern,
    In (key, b) routing_buildings /\ occurs_in key message
    /\ In pattern routing_patterns
    /\ occurs_in (fst pattern) message /\ occurs_in (snd pattern) message.
Proof.
  intros Hby H. apply last_some_member in H as (p & Hp & E).
  assert (Hne : fst p <> "" /\ snd p <> "").
  { destruct Hp as [<-|[<-|[<-|[]]]]; split; discriminate. }
  destruct Hne as [H0 H1].
  assert (X : exists o d text,
             isolated message p = Some (o, d)
             /\ (text = o \/ text = d) /\ last_alias text = Some b).
  { destruct Hby as [Hby|Hby]; rewrite Hby in E;
      unfold origin_by, destination_by in E;
      destruct (isolated message p) as [[o d]|]; try discriminate;
      [exists o, d, o | exists o, d, d]; auto. }
  destruct X as (o & d & text & I & T & L).
  destruct (isolated_occurs _ _ _ _ H0 H1 I) as (P0 & P1 & Oo & Od).
  destruct (last_alias_member _ _ L) as (key & Hin & O).
  exists key, p. repeat split; trivial.
  destruct T as [->| ->]; eapply occurs_trans; eauto.
Qed.

End RoutingTexts.

(** X17.  [analyze_routing_request] never raises and its response is coherent:
    either [found] holds with both buildings and no guidance, or it does
    not and both buildings are null and the guidance is given.  A building
    is reported only when one of its alias keys occurs in the lower-cased
    message together with both prepositions of one of the pairs. *)
Theorem routing_reply_sound (msg : string) :
  exists r,
    analyze_routing_request msg = Ok r
    /\ ((RouteReply.found r = true
         /\ RouteReply.origin r <> None /\ RouteReply.destination r <> None
         /\ RouteReply.message r = None)
        \/ (RouteReply.found r = false
            /\ RouteReply.origin r = None /\ RouteReply.destination r = None
            /\ RouteReply.message r = Some guidance))
    /\ (forall b,
           RouteReply.origin r = Some b \/ RouteReply.destination r = Some b ->
           exists key pattern,
             In (key, b) routing_buildings /\ occurs_in key (lower msg)
             /\ In pattern routing_patterns
             /\ occurs_in (fst pattern) (lower msg)
             /\ occurs_in (snd pattern) (lower msg)).
Proof.
  unfold analyze_routing_request, try_except.
  rewrite pattern_loop_resolved.
  destruct (last_some (map (origin_by (lower msg)) routing_patterns))
    as [o|] eqn:Eo;
    destruct (last_some (map (destination_by (lower msg)) routing_patterns))
      as [d|] eqn:Ed;
    eexists; (split; [reflexivity|]); cbn;
    (split; [first [ left; repeat split; discriminate
                   | right; repeat split ]|]);
    intros b [H|H]; try discriminate; injection H as <-.
  - apply (resolved_by_pattern _ _ origin_by); auto.
  - apply (resolved_by_pattern _ _ destination_by); auto.
Qed.

Lemma routing_reply_sound_witness :
  exists key pattern,
    In (key, place_of university_center) routing_buildings
    /\ occurs_in key (lower "Directions from Library to UC")
    /\ In pattern routing_patterns
    /\ occurs_in (fst pattern) (lower "Directions from Library to UC")
    /\ occurs_in (snd pattern) (lower "Directions from Library to UC").
Proof.
  destruct (routing_reply_sound "Directions from Library to UC")
    as (r & E & _ & H).
  assert (E' : analyze_routing_request "Directions from Library to UC"
               = Ok {| RouteReply.origin :=
                         Some (place_of mary_and_jeff_bell_library);
                       RouteReply.destination :=
                         Some (place_of university_center);
                       RouteReply.found := true;
                       RouteReply.message := None |}) by reflexivity.
  rewrite E' in E. injection E as <-. apply H. right. reflexivity.
Defined.

Ltac each_alias H :=
  unfold routing_buildings, buildings in H; cbn [map fst snd] in H;
  repeat (destruct H as [H|H]; [injection H as <- <-|]); [..|destruct H].

(** X18.  The phrasings the guidance recommends work for every pair of aliases
    of the table: "directions from A to B" and "how to get from A to B"
    answer with the building of A as origin and the building of B as
    destination. *)
Theorem routing_from_to_every_alias (k1 k2 : string) (b1 b2 : Place.t) :
  In (k1, b1) routing_buildings -> In (k2, b2) routing_buildings ->
  analyze_routing_request ("directions from " ++ k1 ++ " to " ++ k2)
  = Ok {| RouteReply.origin := Some b1;
          RouteReply.destination := Some b2;
          RouteReply.found := true;
          RouteReply.message := None |}
  /\ analyze_routing_request ("how to get from " ++ k1 ++ " to " ++ k2)
     = Ok {| RouteReply.origin := Some b1;
             RouteReply.destination := Some b2;
             RouteReply.found := true;
             RouteReply.message := None |}.
Proof.
  intros H1 H2. each_alias H1; each_alias H2;
    split; vm_compute; reflexivity.
Qed.

Lemma routing_from_to_every_alias_witness :
  analyze_routing_request ("directions from " ++ "nrc" ++ " to " ++ "harte")
  = Ok {| RouteReply.origin := Some (place_of natural_resources_center);
          RouteReply.destination := Some (place_of harte_research_institute);
          RouteReply.found := true;
          RouteReply.message := None |}.
Proof.
  apply (routing_from_to_every_alias "nrc" "harte"
           (place_of natural_resources_center)
           (place_of harte_research_institute));
    unfold routing_buildings, buildings; cbn [map fst snd]; in_table.
Defined.

(** X19.  "between A and B" answers with the buildings of A and B for every pair
    of aliases but one: the alias "islander dining" has the preposition
    "and" inside it, the message is cut there, and nothing is found when it
    stands on either side. *)
Theorem routing_between_and_every_alias (k1 k2 : string) (b1 b2 : Place.t) :
  In (k1, b1) routing_buildings -> In (k2, b2) routing_buildings ->
  (k1 <> "islander dining" -> k2 <> "islander dining" ->
   analyze_routing_request ("between " ++ k1 ++ " and " ++ k2)
   = Ok {| RouteReply.origin := Some b1;
           RouteReply.destination := Some b2;
           RouteReply.found := true;
           RouteReply.message := None |})
  /\ (k1 = "islander dining" \/ k2 = "islander dining" ->
      analyze_routing_request ("between " ++ k1 ++ " and " ++ k2)
      = Ok {| RouteReply.origin := None;
              RouteReply.destination := None;
              RouteReply.found := false;
              RouteReply.message := Some guidance |}).
Proof.
  intros H1 H2. each_alias H1; each_alias H2;
    (split;
     [ intros N1 N2;
       first [ now elim N1 | now elim N2 | vm_compute; reflexivity ]
     | intros [E|E];
       first [ discriminate E | vm_compute; reflexivity ] ]).
Qed.

Lemma routing_between_and_every_alias_witness :
  analyze_routing_request ("between " ++ "library" ++ " and " ++ "uc")
  = Ok {| RouteReply.origin := Some (place_of mary_and_jeff_bell_library);
          RouteReply.destination := Some (place_of university_center);
          RouteReply.found := true;
          RouteReply.message := None |}
  /\ analyze_routing_request
       ("between " ++ "library" ++ " and " ++ "islander dining")
     = Ok {| RouteReply.origin := None;
             RouteReply.destination := None;
             RouteReply.found := false;
             RouteReply.message := Some guidance |}.
Proof.
  split.
  - apply (proj1 (routing_between_and_every_alias "library" "uc"
                    (place_of mary_and_jeff_bell_library)
                    (place_of university_center)
                    ltac:(unfold routing_buildings, buildings;
                          cbn [map fst snd]; in_table)
                    ltac:(unfold routing_buildings, buildings;
                          cbn [map fst snd]; in_table)));
      discriminate.
  - apply (proj2 (routing_between_and_every_alias "library" "islander dining"
                    (place_of mary_and_jeff_bell_library)
                    (place_of islander_dining)
                    ltac:(unfold routing_buildings, buildings;
                          cbn [map fst snd]; in_table)
                    ltac:(unfold routing_buildings, buildings;
                          cbn [map fst snd]; in_table))).
    now right.
Defined.

(** X20.  With the pair ("get to", "from") the handler keeps the order of the
    texts, not the sense of the prepositions: in "how do i get to A from B"
    the building of A is reported as the origin and the building of B as
    the destination, for every pair of aliases. *)
Theorem routing_get_to_keeps_text_order (k1 k2 : string) (b1 b2 : Place.t) :
  In (k1, b1) routing_buildings -> In (k2, b2) routing_buildings ->
  analyze_routing_request ("how do i get to " ++ k1 ++ " from " ++ k2)
  = Ok {| RouteReply.origin := Some b1;
          RouteReply.destination := Some b2;
          RouteReply.found := true;
          RouteReply.message := None |}.
Proof.
  intros H1 H2. each_alias H1; each_alias H2; vm_compute; reflexivity.
Qed.

Lemma routing_get_to_keeps_text_order_witness :
  analyze_routing_request ("how do i get to " ++ "uc" ++ " from " ++ "library")
  = Ok {| RouteReply.origin := Some (place_of university_center);
          RouteReply.destination := Some (place_of mary_and_jeff_bell_library);
          RouteReply.found := true;
          RouteReply.message := None |}.
Proof.
  apply (routing_get_to_keeps_text_order "uc" "library"
           (place_of university_center)
           (place_of mary_and_jeff_bell_library));
    unfold routing_buildings, buildings; cbn [map fst snd]; in_table.
Defined.

(** ** Ticket extraction on an answer in the requested format *)

Section FormattedAnswer.

(** A label that ends in a colon, with no line feed before it, cannot start
    inside a value without colon, nor on the line feed that ends it. *)
Lemma after_blocked (body x y : string) :
  ~ occurs_in nl body -> ~ occurs_in ":" x ->
  after (body ++ ":") (x ++ nl ++ y) = None.
Proof.
  revert x; induction body as [|a body IH]; intros x Hb Hx.
  - destruct x as [|c x]; [reflexivity|]. cbn [append after].
    destruct (Ascii.eqb_spec ":" c) as [<-|]; [|reflexivity].
    elim Hx. apply occurs_char_head.
  - destruct x as [|c x]; cbn [append after].
    + change (nl ++ y) with (String newline y). cbn [after].
      destruct (Ascii.eqb_spec a newline) as [->|]; [|reflexivity].
      elim Hb. apply occurs_char_head.
    + destruct (Ascii.eqb_spec a c) as [->|]; [|reflexivity].
      apply IH; intro H; [apply Hb | apply Hx]; now apply occurs_char_tail.
Qed.

Lemma search_skip_value (body x y : string) (dotall : bool) :
  ~ occurs_in nl body -> ~ occurs_in ":" x ->
  search_field (body ++ ":") dotall (x ++ nl ++ y)
  = search_field (body ++ ":") dotall y.
Proof.
  intros Hb Hx. induction x as [|c x IH].
  - pose proof (after_blocked body "" y Hb Hx) as A.
    change ("" ++ nl ++ y) with (String newline y) in *.
    cbn [search_field]. now rewrite A.
  - pose proof (after_blocked body (String c x) y Hb Hx) as A.
    change (String c x ++ nl ++ y) with (String c (x ++ nl ++ y)) in *.
    cbn [search_field]. rewrite A. apply IH.
    intro H. apply Hx. now apply occurs_char_tail.
Qed.

Lemma take_line_value (v y : string) :
  ~ occurs_in nl v -> take_line (v ++ nl ++ y) = v.
Proof.
  induction v as [|c v IH]; intro H; [reflexivity|].
  change (String c v ++ nl ++ y) with (String c (v ++ nl ++ y)).
  cbn [take_line].
  destruct (Ascii.eqb_spec c newline) as [->|].
  - elim H. apply occurs_char_head.
  - rewrite IH; [reflexivity|]. intro O. apply H.
    now apply occurs_char_tail.
Qed.

Lemma length_of_append (a b : string) :
  String.length (a ++ b) = (String.length a + String.length b)%nat.
Proof. induction a as [|c a IH]; cbn; [|rewrite IH]; reflexivity. Qed.

Lemma strip_fixed_head (c : ascii) (v : string) :
  strip (String c v) = String c v -> is_space c = false.
Proof.
  intro H. destruct (is_space c) eqn:S; [|reflexivity].
  rewrite (strip_leading_space c v S) in H.
  destruct (strip_occurs v) as (pre & post & E).
  rewrite H in E. apply (f_equal String.length) in E.
  rewrite !length_of_append in E. cbn [String.length] in E. lia.
Qed.

Lemma group_of_value (v y : string) :
  field_value v ->
  spaces_then_group false (" " ++ v ++ nl ++ y) = Some v.
Proof.
  intros (Hne & Hs & Hnl & _).
  destruct v as [|c v]; [now elim Hne|].
  pose proof (strip_fixed_head c v Hs) as S.
  change (" " ++ String c v ++ nl ++ y)
    with (String " " (String c (v ++ nl ++ y))).
  cbn [spaces_then_group is_space]. 
  change (is_space " ") with true. cbv iota.
  rewrite S. unfold dot_plus.
  change (String c (v ++ nl ++ y)) with (String c v ++ nl ++ y).
  now rewrite (take_line_value _ y Hnl).
Qed.

Lemma str_upto_all (n : nat) (s : string) :
  (String.length s <= n)%nat -> str_upto n s = s.
Proof.
  unfold str_upto. revert n; induction s as [|c s IH]; intros [|n] H; cbn in *;
    try reflexivity; try lia.
  rewrite IH; [reflexivity | lia].
Qed.

Lemma listed_value (v : string) :
  In v valid_categories \/ In v valid_priorities -> field_value v.
Proof.
  intros [H|H]; cbn in H;
    repeat (destruct H as [<-|H];
            [repeat split; try discriminate; try reflexivity;
             apply contains_absent; reflexivity|]);
    destruct H.
Qed.

End FormattedAnswer.

Section FormattedSearch.

Variables s c p d : string.
Hypothesis Hs : field_value s.
Hypothesis Hc : field_value c.
Hypothesis Hp : field_value p.

Lemma search_step (label : string) (dotall : bool) (x : ascii)
  (text : string) :
  after label (String x text) = None ->
  search_field label dotall (String x text)
  = search_field label dotall text.
Proof. intro A. cbn [search_field]. now rewrite A. Qed.

Lemma search_hit (label text rest g : string) (dotall : bool) :
  after label text = Some rest ->
  spaces_then_group dotall rest = Some g ->
  search_field label dotall text = Some g.
Proof.
  intros A G. destruct text; cbn [search_field]; now rewrite A, G.
Qed.

Lemma group_after_space (v y : string) :
  field_value v ->
  spaces_then_group false (String " " (v ++ nl ++ y)) = Some v.
Proof. exact (group_of_value v y). Qed.

Ltac skip_text :=
  cbn [append]; repeat (rewrite search_step by reflexivity).

Ltac hit_value :=
  eapply search_hit; [reflexivity | now apply group_after_space].

Lemma formatted_subject :
  search_field "SUBJECT:" false (formatted_answer s c p d) = Some s.
Proof. unfold formatted_answer. cbn [append]. hit_value. Qed.

Lemma formatted_category :
  search_field "CATEGORY:" false (formatted_answer s c p d) = Some c.
Proof.
  unfold formatted_answer. skip_text.
  rewrite (search_skip_value "CATEGORY" s _ false);
    [|apply contains_absent; reflexivity | apply Hs].
  hit_value.
Qed.

Lemma formatted_priority :
  search_field "PRIORITY:" false (formatted_answer s c p d) = Some p.
Proof.
  unfold formatted_answer. skip_text.
  rewrite (search_skip_value "PRIORITY" s _ false);
    [|apply contains_absent; reflexivity | apply Hs].
  skip_text.
  rewrite (search_skip_value "PRIORITY" c _ false);
    [|apply contains_absent; reflexivity | apply Hc].
  hit_value.
Qed.

Lemma formatted_description :
  d <> "" ->
  exists g,
    search_field "DESCRIPTION:" true (formatted_answer s c p d) = Some g
    /\ strip g = strip d.
Proof.
  intro Hd. unfold formatted_answer. skip_text.
  rewrite (search_skip_value "DESCRIPTION" s _ true);
    [|apply contains_absent; reflexivity | apply Hs].
  skip_text.
  rewrite (search_skip_value "DESCRIPTION" c _ true);
    [|apply contains_absent; reflexivity | apply Hc].
  skip_text.
  rewrite (search_skip_value "DESCRIPTION" p _ true);
    [|apply contains_absent; reflexivity | apply Hp].
  destruct (group_to_the_end (String " " d) ltac:(discriminate))
    as (g & G & E).
  exists g. split.
  - eapply search_hit; [reflexivity | exact G].
  - rewrite E. now apply strip_leading_space.
Qed.

End FormattedSearch.



(** ** The knowledge base on the fallback path *)

Lemma hits_of_question (w : World) (q a : string) :
  _mongo_text_search w q 8 <> [] -> hits_of w q a = _mongo_text_search w q 8.
Proof.
  intro H. unfold hits_of.
  destruct (_mongo_text_search w q 8); [now elim H | reflexivity].
Qed.

Lemma hits_of_blank (w : World) (q a : string) :
  all_space q = true -> all_space a = true -> hits_of w q a = [].
Proof.
  intros Hq Ha. unfold hits_of.
  rewrite (proj1 (mongo_text_search_blank_cases w q 8) Hq),
    (proj1 (mongo_text_search_blank_cases w a 8) Ha).
  now destruct (negb (nonempty []) && truthy a).
Qed.

(** X22.  With the language model off, the answer is searched only when the
    question finds nothing: when the question has hits, chips and source
    are the same for every answer.  When question and answer are both
    blank the store is not consulted at all and the chips come from the
    generic list. *)
Theorem fallback_uses_question_first (w : World) (q a a' : string) (k : Z) :
  llm_enabled w = false ->
  (_mongo_text_search w q 8 <> [] ->
   chips_of (build_llm_style_followups w q a k)
   = chips_of (build_llm_style_followups w q a' k)
   /\ source_of (build_llm_style_followups w q a k)
      = source_of (build_llm_style_followups w q a' k))
  /\ (all_space q = true -> all_space a = true ->
      chips_of (build_llm_style_followups w q a k)
      = slice_upto k (map faq_chip (slice_upto k generic_suggestions))).
Proof.
  intro Hoff. rewrite !build_paths, Hoff. unfold chips_of, source_of.
  cbn [fst snd]. split.
  - intro H.
    rewrite (hits_of_question w q a H), (hits_of_question w q a' H).
    now split.
  - intros Hq Ha. rewrite (hits_of_blank w q a Hq Ha).
    unfold fallback_suggestions. cbn [firstn titles_of filter].
    assert (E : slice_upto k (@nil string) = [])
      by (unfold slice_upto; destruct (0 <=? k)%Z; apply firstn_nil).
    now rewrite E.
Qed.

Lemma fallback_uses_question_first_witness :
  llm_enabled (Examples.offline [ Examples.titled "Tuition" ] []) = false
  /\ all_space " " = true
  /\ chips_of
       (build_llm_style_followups
          (Examples.offline [ Examples.titled "Tuition" ] []) " " "" 2)
     = [ faq_chip "application deadlines for scholarships";
         faq_chip "GPA needed for freshman admission" ].
Proof.
  split; [reflexivity|]. split; [reflexivity|].
  apply (proj2 (fallback_uses_question_first
                  (Examples.offline [ Examples.titled "Tuition" ] [])
                  " " "" "" 2 eq_refl));
    reflexivity.
Defined.
